(** * clipper.py: label sanitization, ring-buffer cleanup and clip assembly

    A shallow embedding of [src/clipper.py].  Python [int]s are [Z], a
    Python [str] is the list of its code points, the buffer directory is
    the list of its segment files, and the effectful methods
    ([Recorder._cleanup_loop], [ClipAssembler.save_clip]) run in a small
    state/exception/event monad over the file system. *)

From Stdlib Require Import ZArith List Bool Lia Permutation Sorting.Sorted String Ascii.
Import ListNotations.

Local Open Scope Z_scope.

(* ================================================================= *)
(** ** Python values *)

(** A Python [str]: a sequence of Unicode code points. *)
Definition pystr := list Z.

(** A literal written with ASCII / Latin-1 characters. *)
Fixpoint lit (s : string) : pystr :=
  match s with
  | EmptyString => []
  | String a t => Z.of_N (N_of_ascii a) :: lit t
  end.

(** [len(x)] as a Python int. *)
Definition len {A} (l : list A) : Z := Z.of_nat (List.length l).

(** [int(a / b)]: true division followed by truncation toward zero.  The
    quotient is computed on floats; it is the exact truncated quotient as
    long as [|a| < 2^53], which covers every duration in seconds.
    Division by zero raises [ZeroDivisionError], here [None].  The
    embedding computes with the exact quotient; [float_int_truediv] below
    is the interpreter's computation, [float_int_truediv_exact] proves
    that the two agree for [|a| < 2^53], and the theorems whose statement
    depends on the value of a quotient assume that bound. *)
Definition int_truediv (a b : Z) : option Z :=
  if b =? 0 then None else Some (Z.quot a b).

(** *** The interpreter's [int(a / b)]

    [a / b] on ints is the exact quotient rounded to the nearest double,
    ties to even; it raises [OverflowError] when that double would be
    [2^1024] or more, and [ZeroDivisionError] when [b] is 0.  [int]
    then truncates toward zero. *)
Inductive IntTrueDiv :=
| DivZero              (* ZeroDivisionError *)
| DivOverflow          (* OverflowError: integer division result too large for a float *)
| DivValue (q : Z).

(** The integer nearest to [n / d], ties to even, for [d > 0]. *)
Definition round_half_even (n d : Z) : Z :=
  let q := n / d in
  let r := n mod d in
  if 2 * r <? d then q
  else if d <? 2 * r then q + 1
  else if Z.even q then q else q + 1.

(** [n / (d * 2^e)] as a fraction of integers. *)
Definition scaled_num (n e : Z) : Z := if 0 <=? e then n else n * 2 ^ (- e).
Definition scaled_den (d e : Z) : Z := if 0 <=? e then d * 2 ^ e else d.

(** For [n, d > 0], the exponent [e] with [2^52 <= n / (d * 2^e) < 2^53]:
    the double nearest to [n / d] is [m * 2^e] for the 53-bit [m] nearest
    to that fraction. *)
Definition double_exponent (n d : Z) : Z :=
  let e := Z.log2 n - Z.log2 d - 52 in
  if 2 ^ 52 * scaled_den d e <=? scaled_num n e then e else e - 1.

(** [int(n / d)] for [n, d > 0]; [None] on overflow.  (Below [2^-1022]
    doubles are spaced wider, but all of them truncate to 0, as here.) *)
Definition double_int_quotient (n d : Z) : option Z :=
  let e := double_exponent n d in
  let m := round_half_even (scaled_num n e) (scaled_den d e) in
  if (971 <? e) || ((e =? 971) && (m =? 2 ^ 53)) then None
  else Some (if 0 <=? e then m * 2 ^ e else m / 2 ^ (- e)).

Definition float_int_truediv (a b : Z) : IntTrueDiv :=
  if b =? 0 then DivZero
  else if a =? 0 then DivValue 0
  else match double_int_quotient (Z.abs a) (Z.abs b) with
       | None => DivOverflow
       | Some q => DivValue (Z.sgn a * Z.sgn b * q)
       end.



(** [l[:n]] for a Python int [n >= 0] (the only slices the program takes). *)
Definition slice_to {A} (n : Z) (l : list A) : list A := firstn (Z.to_nat n) l.

(** The ceiling of [a / b], used to state what the specification asks. *)
Definition ceil_div (a b : Z) : Z := - ((- a) / b).

(* ================================================================= *)
(** ** [sanitize_filename_component] *)

Module Sanitize.

(** [Py_UNICODE_ISSPACE], shared by [str.strip] and the regex class [\s]. *)
Definition isspace (c : Z) : bool :=
  ((9 <=? c) && (c <=? 13)) || ((28 <=? c) && (c <=? 32))
  || (c =? 133) || (c =? 160) || (c =? 5760)
  || ((8192 <=? c) && (c <=? 8202))
  || (c =? 8232) || (c =? 8233) || (c =? 8239) || (c =? 8287) || (c =? 12288).

(** Letters and digits of ASCII. *)
Definition ascii_alnum (c : Z) : bool :=
  ((48 <=? c) && (c <=? 57)) || ((65 <=? c) && (c <=? 90)) || ((97 <=? c) && (c <=? 122)).

(** The character set [[A-Za-z0-9._-]]. *)
Definition portable (c : Z) : bool :=
  ascii_alnum c || (c =? 46) || (c =? 95) || (c =? 45).

Definition SPACE : Z := 32.
Definition UNDERSCORE : Z := 95.
Definition HYPHEN : Z := 45.
Definition DOT : Z := 46.

Definition untitled : pystr := lit "untitled".

Fixpoint dropwhile (p : Z -> bool) (s : pystr) : pystr :=
  match s with
  | [] => []
  | c :: t => if p c then dropwhile p t else s
  end.

(** [s.strip()] *)
Definition strip (s : pystr) : pystr :=
  rev (dropwhile isspace (rev (dropwhile isspace s))).

(** [re.sub("[cls]+", repl, s)]: every maximal run of characters of the
    class is replaced by [repl]; [in_run] tells that the previous
    character already belonged to the run being replaced. *)
Fixpoint re_sub_runs (cls : Z -> bool) (repl : pystr) (in_run : bool) (s : pystr) : pystr :=
  match s with
  | [] => []
  | c :: t =>
      if cls c
      then (if in_run then [] else repl) ++ re_sub_runs cls repl true t
      else c :: re_sub_runs cls repl false t
  end.

(** [s.replace(" ", "_")] *)
Definition replace_spaces (s : pystr) : pystr :=
  map (fun c => if c =? SPACE then UNDERSCORE else c) s.

Section WithUnicode.

(** [Py_UNICODE_ISALNUM], the letters and digits of the interpreter's
    Unicode database; the table itself is not part of the program. *)
Variable isalnum : Z -> bool.

(** The regex class [\w] on [str] patterns. *)
Definition isword (c : Z) : bool := isalnum c || (c =? UNDERSCORE).

(** The class [[\w\-\. ]]; the second substitution removes its complement. *)
Definition kept (c : Z) : bool :=
  isword c || (c =? HYPHEN) || (c =? DOT) || (c =? SPACE).

Definition sanitize_filename_component (s : pystr) : pystr :=
  let s := strip s in
  match s with
  | [] => untitled
  | _ =>
      let s := re_sub_runs isspace [SPACE] false s in
      let s := re_sub_runs (fun c => negb (kept c)) [] false s in
      let s := replace_spaces s in
      slice_to 80 s
  end.

(** The pipeline in the specification's words: trim, collapse whitespace
    runs, drop what is not a letter, a digit, [-], [.] or a space,
    replace spaces, truncate, and only then substitute the placeholder. *)
Definition spec_kept (c : Z) : bool :=
  isalnum c || (c =? HYPHEN) || (c =? DOT) || (c =? SPACE).

Definition spec_pipeline (keep : Z -> bool) (s : pystr) : pystr :=
  slice_to 80
    (replace_spaces
       (filter keep (re_sub_runs isspace [SPACE] false (strip s)))).

Definition spec_sanitize (s : pystr) : pystr :=
  match spec_pipeline spec_kept s with
  | [] => untitled
  | r => r
  end.

End WithUnicode.

(** A table that knows the ASCII letters and digits only; enough to run
    the function on ASCII input. *)
Definition ascii_table : Z -> bool := ascii_alnum.

(** The interpreter's table below U+0100 (Latin-1 letters, superscript
    digits and fractions included), and nothing above. *)
Definition latin1_table (c : Z) : bool :=
  ascii_alnum c || (c =? 170) || (c =? 178) || (c =? 179) || (c =? 181)
  || (c =? 185) || (c =? 186) || ((188 <=? c) && (c <=? 190))
  || ((192 <=? c) && (c <=? 214)) || ((216 <=? c) && (c <=? 246))
  || ((248 <=? c) && (c <=? 255)).

End Sanitize.

(* ================================================================= *)
(** ** Configuration, paths and the file system *)

(** [Config] (the directories are fixed, see [Path]). *)
Record Config := {
  ffmpeg_path : pystr;
  clip_length : Z;
  segment_time : Z;
  framerate : Z;
  encoder : pystr;
  preset : pystr;
  gop : Z;
  min_free_gb : Z
}.

Definition DEFAULT_BUFFER_SECS : Z := 120.
Definition DEFAULT_SEGMENT_SECS : Z := 10.
Definition DEFAULT_FRAMERATE : Z := 60.

Definition default_config : Config := {|
  ffmpeg_path := lit "ffmpeg";
  clip_length := DEFAULT_BUFFER_SECS;
  segment_time := DEFAULT_SEGMENT_SECS;
  framerate := DEFAULT_FRAMERATE;
  encoder := lit "libx264";
  preset := lit "veryfast";
  gop := 120;
  min_free_gb := 2
|}.

(** The files the program names. *)
Inductive Path :=
| BufSeg (index : Z)                              (* buffer_dir / "buf-%05d.ts" *)
| TmpList (name : Z)                              (* buffer_dir / "tmp<name>.txt" *)
| ClipFile (ts : Z) (length : Z) (label : pystr). (* clips_dir / "{ts}_{length}s_{label}.mp4" *)

(** A directory entry matching [buf-*.ts], with what [stat] says of it. *)
Record Seg := { seg_index : Z; st_mtime : Z }.

Definition seg_path (p : Seg) : Path := BufSeg (seg_index p).

(** The two ways the concatenation is requested. *)
Inductive Codec :=
| StreamCopy (faststart : bool)                       (* -c copy -movflags +faststart *)
| Reencode (enc preset pix_fmt : pystr).              (* -c:v enc -preset preset -pix_fmt fmt *)

(** [ffmpeg -y -f concat -safe 0 -i <input> <codec> <output>] *)
Record Cmd := {
  cmd_exe : pystr;
  cmd_overwrite : bool;
  cmd_input : Path;
  cmd_codec : Codec;
  cmd_output : Path
}.

Inductive Content :=
| ManifestLines (lines : list Path)                   (* file '<path>' per line *)
| Video (complete : bool) (codec : Codec) (sources : list Path).

(** The buffer directory in the order [glob] yields it, and the other
    files (manifests, clips). *)
Record FS := {
  buffer : list Seg;
  files : list (Path * Content)
}.

Definition Path_eqb (p q : Path) : bool :=
  match p, q with
  | BufSeg i, BufSeg j => i =? j
  | TmpList a, TmpList b => a =? b
  | ClipFile t l s, ClipFile t' l' s' =>
      (t =? t') && (l =? l') && (if list_eq_dec Z.eq_dec s s' then true else false)
  | _, _ => false
  end.

Fixpoint lookup_file (p : Path) (fl : list (Path * Content)) : option Content :=
  match fl with
  | [] => None
  | (q, c) :: t => if Path_eqb p q then Some c else lookup_file p t
  end.

Definition remove_file (p : Path) (fl : list (Path * Content)) : list (Path * Content) :=
  filter (fun e => negb (Path_eqb p (fst e))) fl.

Definition write_file (p : Path) (c : Content) (fl : list (Path * Content)) :=
  (p, c) :: remove_file p fl.

Arguments lookup_file p fl : simpl never.
Arguments remove_file p fl : simpl never.
Arguments write_file p c fl : simpl never.

(** The state after [p.unlink(missing_ok=True)]. *)
Definition fs_unlink (p : Path) (fs : FS) : FS :=
  match p with
  | BufSeg i => {| buffer := filter (fun q => negb (seg_index q =? i)) (buffer fs);
                   files := files fs |}
  | _ => {| buffer := buffer fs; files := remove_file p (files fs) |}
  end.

(* ================================================================= *)
(** ** [sorted(..., key=..., reverse=...)] *)

Section Sorted.
Context {A : Type} (key : A -> Z).

Fixpoint insert_by (x : A) (l : list A) : list A :=
  match l with
  | [] => [x]
  | y :: t => if key x <=? key y then x :: l else y :: insert_by x t
  end.

(** A stable sort: an element stays before the later ones of equal key. *)
Fixpoint sort_by (l : list A) : list A :=
  match l with
  | [] => []
  | x :: t => insert_by x (sort_by t)
  end.

(** [reverse=True] reverses, sorts and reverses again, which keeps the
    original order among equal keys. *)
Definition sorted (reverse : bool) (l : list A) : list A :=
  if reverse then rev (sort_by (rev l)) else sort_by l.
End Sorted.
Arguments sorted {A} key reverse l : simpl never.

(* ================================================================= *)
(** ** Effects: state, exceptions, early [return], observable events *)

Inductive exn :=
| ZeroDivisionError
| CalledProcessError (returncode : Z)
| OSError.

Inductive Level := DEBUG | INFO | WARNING | ERROR.

Inductive LogMsg :=
| MsgInsufficientSpace                       (* "Insufficient free space to save clip." *)
| MsgNoSegments                              (* "No segments found; ..." *)
| MsgAssembling (length : Z) (out : Path)    (* "Assembling clip (%ds) -> %s" *)
| MsgConcatCopyCmd (c : Cmd)                 (* "Concat (copy) command: %s" *)
| MsgClipSaved (out : Path)                  (* "Clip saved: %s" *)
| MsgFastConcatFailed                        (* "Fast concat failed; retrying with re-encode..." *)
| MsgConcatReencCmd (c : Cmd)                (* "Concat (reencode) command: %s" *)
| MsgClipSavedReenc (out : Path)             (* "Clip saved (re-encoded): %s" *)
| MsgFailedAssemble (e : exn)                (* "Failed to assemble clip: %s", with the traceback *)
| MsgLowDisk (free : Z) (count : Z).         (* "Low disk space (%.2f GB). Pruned %d old segments." *)

(** What the program does to the outside, in order. *)
Inductive Event :=
| EvDiskUsage                                (* psutil.disk_usage(clips_dir) *)
| EvGlob                                     (* buffer_dir.glob("buf-*.ts") and the stats *)
| EvMkdir                                    (* clips_dir.mkdir(parents=True, exist_ok=True) *)
| EvCreate (p : Path) (lines : list Path)    (* the concat list file is written *)
| EvRun (c : Cmd)                            (* subprocess.check_call *)
| EvUnlink (p : Path)
| EvLog (lvl : Level) (m : LogMsg)
| EvNotify (out : Path).                     (* notify(f"Clip saved: {out_path}") *)

(** How a block ends: it falls through, executes [return], or raises. *)
Inductive ctl (R A : Type) :=
| Next (a : A)
| Return (r : R)
| Raise (e : exn).
Arguments Next {R A} a.
Arguments Return {R A} r.
Arguments Raise {R A} e.

Definition M (R A : Type) : Type := FS -> ctl R A * FS * list Event.

Definition ret {R A} (a : A) : M R A := fun fs => (Next a, fs, []).

Definition bind {R A B} (m : M R A) (k : A -> M R B) : M R B :=
  fun fs =>
    match m fs with
    | (Next a, fs1, ev1) =>
        match k a fs1 with
        | (c, fs2, ev2) => (c, fs2, ev1 ++ ev2)
        end
    | (Return r, fs1, ev1) => (Return r, fs1, ev1)
    | (Raise e, fs1, ev1) => (Raise e, fs1, ev1)
    end.

Declare Scope py_scope.
Delimit Scope py_scope with py.
Notation "x <- m ;; k" := (bind m (fun x => k))
  (at level 61, m at next level, right associativity) : py_scope.
Notation "m ;; k" := (bind m (fun _ => k))
  (at level 61, right associativity) : py_scope.
Local Open Scope py_scope.

Definition return_ {R A} (r : R) : M R A := fun fs => (Return r, fs, []).
Definition raise {R A} (e : exn) : M R A := fun fs => (Raise e, fs, []).
Definition emit {R} (e : Event) : M R unit := fun fs => (Next tt, fs, [e]).
Definition get_fs {R} : M R FS := fun fs => (Next fs, fs, []).
Definition modify_fs {R} (f : FS -> FS) : M R unit := fun fs => (Next tt, f fs, []).

(** [try: body except <those the handler names>: handler].  An early
    [return] is not an exception and passes through. *)
Definition try_except {R A} (body : M R A) (handler : exn -> option (M R A)) : M R A :=
  fun fs =>
    match body fs with
    | (Raise e, fs1, ev1) =>
        match handler e with
        | Some h => match h fs1 with (c, fs2, ev2) => (c, fs2, ev1 ++ ev2) end
        | None => (Raise e, fs1, ev1)
        end
    | r => r
    end.

(** [try: body finally: fin].  [fin] always runs; the way [body] ended is
    kept unless [fin] itself returns or raises. *)
Definition try_finally {R A} (body : M R A) (fin : M R unit) : M R A :=
  fun fs =>
    match body fs with
    | (c, fs1, ev1) =>
        match fin fs1 with
        | (Next _, fs2, ev2) => (c, fs2, ev1 ++ ev2)
        | (Return r, fs2, ev2) => (Return r, fs2, ev1 ++ ev2)
        | (Raise e, fs2, ev2) => (Raise e, fs2, ev1 ++ ev2)
        end
    end.

(** [except Exception: pass] *)
Definition pass_on_exception {R} : exn -> option (M R unit) := fun _ => Some (ret tt).

(** [for x in l: body x] *)
Fixpoint for_each {R A} (l : list A) (body : A -> M R unit) : M R unit :=
  match l with
  | [] => ret tt
  | x :: t => body x ;; for_each t body
  end.

(** How a call of a function ends. *)
Inductive outcome (R : Type) :=
| Returns (r : R)
| Raises (e : exn).
Arguments Returns {R} r.
Arguments Raises {R} e.

(** A function body that falls off its end returns [dflt] ([None]). *)
Definition call {R} (dflt : R) (body : M R unit) (fs : FS) : outcome R * FS * list Event :=
  match body fs with
  | (Next _, fs1, ev) => (Returns dflt, fs1, ev)
  | (Return r, fs1, ev) => (Returns r, fs1, ev)
  | (Raise e, fs1, ev) => (Raises e, fs1, ev)
  end.

(* ================================================================= *)
(** ** The environment of a call *)

(** The module-level [psutil]: [None] when the import failed; otherwise
    [disk_usage] answers or raises. *)
Inductive Psutil := Missing | Failing | Working.

Inductive ProcOutcome :=
| Exit (code : Z)        (* the process ran and exited with this status *)
| SpawnError.            (* the process could not be started *)

Record Env := {
  psutil : Psutil;
  free_bytes : Z;                 (* free space of the output volume *)
  now : Z;                        (* dt.datetime.now(), to the second *)
  window_title : pystr;           (* get_active_window_title() *)
  tmp_name : Z;                   (* the name tempfile picks *)
  run_copy : ProcOutcome;         (* how the stream-copy concat ends *)
  run_reenc : ProcOutcome;        (* how the re-encode concat ends *)
  isalnum : Z -> bool             (* the interpreter's Unicode table *)
}.

(** [psutil.disk_usage(str(clips_dir)).free] *)
Definition disk_usage_free {R} (env : Env) : M R Z :=
  emit EvDiskUsage ;;
  match psutil env with
  | Working => ret (free_bytes env)
  | _ => raise OSError
  end.

(** [sorted(buffer_dir.glob("buf-*.ts"), key=lambda p: p.stat().st_mtime, reverse=r)] *)
Definition list_segments {R} (reverse : bool) : M R (list Seg) :=
  emit EvGlob ;;
  fs <- get_fs ;;
  ret (sorted st_mtime reverse (buffer fs)).

(** [p.unlink(missing_ok=True)] *)
Definition unlink {R} (p : Path) : M R unit :=
  emit (EvUnlink p) ;;
  modify_fs (fs_unlink p).

Definition log {R} (lvl : Level) (m : LogMsg) : M R unit := emit (EvLog lvl m).

Definition notify {R} (out : Path) : M R unit := emit (EvNotify out).

(** [tempfile.NamedTemporaryFile("w", delete=False, suffix=".txt", dir=buffer_dir)]
    with one [file '<path>'] line written per chosen segment. *)
Definition write_concat_list {R} (env : Env) (chosen : list Seg) : M R Path :=
  let p := TmpList (tmp_name env) in
  let lines := map seg_path chosen in
  emit (EvCreate p lines) ;;
  modify_fs (fun fs => {| buffer := buffer fs;
                          files := write_file p (ManifestLines lines) (files fs) |}) ;;
  ret p.

(** [subprocess.check_call(cmd)].  The concat demuxer reads its list file;
    with [-y] the output is created or overwritten, complete when the
    process exits 0.  A non-zero status raises [CalledProcessError]. *)
Definition check_call {R} (how : ProcOutcome) (c : Cmd) : M R unit :=
  emit (EvRun c) ;;
  match how with
  | SpawnError => raise OSError
  | Exit code =>
      fs <- get_fs ;;
      match lookup_file (cmd_input c) (files fs) with
      | Some (ManifestLines lines) =>
          modify_fs (fun fs => {| buffer := buffer fs;
                                  files := write_file (cmd_output c)
                                             (Video (code =? 0) (cmd_codec c) lines)
                                             (files fs) |}) ;;
          if code =? 0 then ret tt else raise (CalledProcessError code)
      | _ => raise (CalledProcessError (if code =? 0 then 1 else code))
      end
  end.

(* ================================================================= *)
(** ** [Recorder._cleanup_loop] *)

Definition GIB : Z := 1024 ^ 3.

(** [capacity = int(clip_length / segment_time) * 3  # generous cushion] *)
Definition capacity (cfg : Config) : option Z :=
  match int_truediv (clip_length cfg) (segment_time cfg) with
  | Some q => Some (q * 3)
  | None => None
  end.

(** [usage.free / (1024 ** 3) < min_free_gb], on exact numbers. *)
Definition below_min_free (cfg : Config) (free : Z) : bool :=
  free <? min_free_gb cfg * GIB.

(** The body of the [while] loop, without the final [stop_event.wait(5)]. *)
Definition cleanup_tick (cfg : Config) (env : Env) (capacity : Z) : M unit unit :=
  try_except
    (segs <- list_segments false ;;
     (if len segs >? capacity then
        let to_delete := slice_to (len segs - capacity) segs in
        for_each to_delete
          (fun p => try_except (unlink (seg_path p)) pass_on_exception)
      else ret tt) ;;
     match psutil env with
     | Missing => ret tt
     | _ =>
         try_except
           (free <- disk_usage_free env ;;
            if below_min_free cfg free && negb (len segs =? 0) then
              (* free some space by deleting 10% oldest buffer *)
              let count := Z.max 1 (len segs / 10) in
              for_each (slice_to count segs) (fun p => unlink (seg_path p)) ;;
              log WARNING (MsgLowDisk free count)
            else ret tt)
           pass_on_exception
     end)
    pass_on_exception.

Fixpoint cleanup_ticks (cfg : Config) (env : Env) (capacity : Z) (n : nat) : M unit unit :=
  match n with
  | O => ret tt
  | S k => cleanup_tick cfg env capacity ;; cleanup_ticks cfg env capacity k
  end.

(** The loop until [stop_event] is set during the [n]-th wait. *)
Definition cleanup_loop (cfg : Config) (env : Env) (n : nat) : FS -> outcome unit * FS * list Event :=
  call tt
    (match capacity cfg with
     | None => raise ZeroDivisionError
     | Some c => cleanup_ticks cfg env c n
     end).

(* ================================================================= *)
(** ** [ClipAssembler.save_clip] *)

Definition ASSEMBLY_FLOOR : Z := 300 * 1024 * 1024.

(** [length_seconds or self.cfg.clip_length]: [None] and [0] are falsy. *)
Definition effective_length (cfg : Config) (length_seconds : option Z) : Z :=
  match length_seconds with
  | None => clip_length cfg
  | Some d => if d =? 0 then clip_length cfg else d
  end.

(** [max(1, int((length + segment_time - 1) / segment_time))] *)
Definition needed_segments (cfg : Config) (length : Z) : option Z :=
  match int_truediv (length + segment_time cfg - 1) (segment_time cfg) with
  | Some q => Some (Z.max 1 q)
  | None => None
  end.

Definition copy_cmd (cfg : Config) (list_path out_path : Path) : Cmd := {|
  cmd_exe := ffmpeg_path cfg;
  cmd_overwrite := true;
  cmd_input := list_path;
  cmd_codec := StreamCopy true;
  cmd_output := out_path
|}.

Definition reenc_cmd (cfg : Config) (list_path out_path : Path) : Cmd := {|
  cmd_exe := ffmpeg_path cfg;
  cmd_overwrite := true;
  cmd_input := list_path;
  cmd_codec := Reencode (encoder cfg) (preset cfg) (lit "yuv420p");
  cmd_output := out_path
|}.

Definition out_path_of (cfg : Config) (env : Env) (length : Z) : Path :=
  ClipFile (now env) length
    (Sanitize.sanitize_filename_component (isalnum env) (window_title env)).

Definition only_called_process_error {R A} (h : exn -> M R A) : exn -> option (M R A) :=
  fun e => match e with
           | CalledProcessError _ => Some (h e)
           | _ => None
           end.

Definition save_clip_body (cfg : Config) (env : Env) (length_seconds : option Z)
  : M (option Path) unit :=
  let length := effective_length cfg length_seconds in
  match needed_segments cfg length with
  | None => raise ZeroDivisionError
  | Some needed =>
      (* Check disk space *)
      match psutil env with
      | Missing => ret tt
      | _ =>
          try_except
            (free <- disk_usage_free env ;;
             if free <? ASSEMBLY_FLOOR then
               log ERROR MsgInsufficientSpace ;;
               return_ None
             else ret tt)
            pass_on_exception
      end ;;
      segs <- list_segments true ;;
      match segs with
      | [] => log ERROR MsgNoSegments ;; return_ None
      | _ =>
          let chosen := rev (slice_to needed segs) in
          let out_path := out_path_of cfg env length in
          emit EvMkdir ;;
          list_path <- write_concat_list env chosen ;;
          let copy := copy_cmd cfg list_path out_path in
          log INFO (MsgAssembling length out_path) ;;
          log DEBUG (MsgConcatCopyCmd copy) ;;
          try_finally
            (try_except
               (check_call (run_copy env) copy ;;
                log INFO (MsgClipSaved out_path) ;;
                notify out_path ;;
                return_ (Some out_path))
               (only_called_process_error (fun _ =>
                  log WARNING MsgFastConcatFailed ;;
                  let reenc := reenc_cmd cfg list_path out_path in
                  log DEBUG (MsgConcatReencCmd reenc) ;;
                  try_finally
                    (try_except
                       (check_call (run_reenc env) reenc ;;
                        log INFO (MsgClipSavedReenc out_path) ;;
                        notify out_path ;;
                        return_ (Some out_path))
                       (only_called_process_error (fun e =>
                          log ERROR (MsgFailedAssemble e) ;;
                          return_ None)))
                    (try_except (unlink list_path) pass_on_exception))))
            (try_except (unlink list_path) pass_on_exception)
      end
  end.

Definition save_clip (cfg : Config) (env : Env) (length_seconds : option Z)
  : FS -> outcome (option Path) * FS * list Event :=
  call None (save_clip_body cfg env length_seconds).

(* ================================================================= *)
(** ** Test fixtures *)

(** Segments [buf-<lo>.ts .. buf-<lo+n-1>.ts], each 10 s after the other. *)
Fixpoint segs_from (lo : Z) (n : nat) : list Seg :=
  match n with
  | O => []
  | S k => {| seg_index := lo; st_mtime := 1000 + 10 * lo |} :: segs_from (lo + 1) k
  end.

Definition fs_with (n : nat) : FS := {| buffer := segs_from 1 n; files := [] |}.

Definition env0 : Env := {|
  psutil := Working;
  free_bytes := 10 * GIB;
  now := 20260101120000;
  window_title := lit "My Game";
  tmp_name := 7;
  run_copy := Exit 0;
  run_reenc := Exit 0;
  isalnum := Sanitize.latin1_table
|}.

Definition with_probe (env : Env) (p : Psutil) (free : Z) : Env := {|
  psutil := p;
  free_bytes := free;
  now := now env;
  window_title := window_title env;
  tmp_name := tmp_name env;
  run_copy := run_copy env;
  run_reenc := run_reenc env;
  isalnum := isalnum env
|}.

Definition with_ffmpeg (env : Env) (copy reenc : ProcOutcome) : Env := {|
  psutil := psutil env;
  free_bytes := free_bytes env;
  now := now env;
  window_title := window_title env;
  tmp_name := tmp_name env;
  run_copy := copy;
  run_reenc := reenc;
  isalnum := isalnum env
|}.

Definition with_lengths (cfg : Config) (clip seg : Z) : Config := {|
  ffmpeg_path := ffmpeg_path cfg;
  clip_length := clip;
  segment_time := seg;
  framerate := framerate cfg;
  encoder := encoder cfg;
  preset := preset cfg;
  gop := gop cfg;
  min_free_gb := min_free_gb cfg
|}.

(* ================================================================= *)
(** ** Observations on a run *)

(** The events a free-space probe leaves, whatever it answers. *)
Definition probe_events (env : Env) : list Event :=
  match psutil env with
  | Missing => []
  | _ => [EvDiskUsage]
  end.

(** The probe says that less than [floor] bytes are free. *)
Definition probe_reports_below (env : Env) (floor : Z) : bool :=
  match psutil env with
  | Working => free_bytes env <? floor
  | _ => false
  end.

Definition is_notify (e : Event) : bool :=
  match e with EvNotify _ => true | _ => false end.


(** The user notifications of a run, in order. *)
Definition notifications (evs : list Event) : list Event := filter is_notify evs.

(** The concat lists written during a run. *)
Fixpoint manifests (evs : list Event) : list (list Path) :=
  match evs with
  | [] => []
  | EvCreate _ lines :: t => lines :: manifests t
  | _ :: t => manifests t
  end.


(** The paths [unlink] was called on, in order. *)
Fixpoint unlinked (evs : list Event) : list Path :=
  match evs with
  | [] => []
  | EvUnlink p :: t => p :: unlinked t
  | _ :: t => unlinked t
  end.

(** [buf-<lo>.ts .. buf-<lo+n-1>.ts] *)
Fixpoint buf_range (lo : Z) (n : nat) : list Path :=
  match n with
  | O => []
  | S k => BufSeg lo :: buf_range (lo + 1) k
  end.

(** The concatenation ends well: the stream copy exits 0, or it exits
    non-zero and the re-encode exits 0. *)
Definition concat_succeeds (env : Env) : bool :=
  match run_copy env with
  | Exit c =>
      if c =? 0 then true
      else match run_reenc env with
           | Exit c' => c' =? 0
           | SpawnError => false
           end
  | SpawnError => false
  end.

(** The oldest segments in excess of the capacity. *)
Definition capacity_excess (capacity : Z) (fs : FS) : list Seg :=
  let segs := sorted st_mtime false (buffer fs) in
  if len segs >? capacity then slice_to (len segs - capacity) segs else [].

Definition unlink_all (l : list Seg) (fs : FS) : FS :=
  fold_left (fun f p => fs_unlink (seg_path p) f) l fs.

(** [q] is the file of one of the entries of [l]. *)
Definition removed_by (l : list Seg) (q : Seg) : bool :=
  existsb (fun p => seg_index p =? seg_index q) l.

Definition unlink_events (l : list Seg) : list Event :=
  map (fun p => EvUnlink (seg_path p)) l.

(** The file system after the capacity prune alone. *)
Definition capacity_pruned (capacity : Z) (fs : FS) : FS :=
  unlink_all (capacity_excess capacity fs) fs.

(* ================================================================= *)
(** ** [detect_primary_monitor] *)

Record MonitorRegion := {
  width : Z;
  height : Z;
  offset_x : Z;
  offset_y : Z
}.

(** A [screeninfo] monitor; an attribute may be absent ([None]). *)
Record Monitor := {
  mon_is_primary : option bool;
  mon_x : option Z;
  mon_y : option Z;
  mon_width : option Z;
  mon_height : option Z
}.

(** [getattr(obj, name, default)] *)
Definition getattr {A} (attr : option A) (default : A) : A :=
  match attr with
  | Some a => a
  | None => default
  end.

(** The module-level [get_monitors]: [None] when the import failed;
    otherwise the call raises or answers. *)
Inductive Screeninfo :=
| NoScreeninfo
| GetMonitorsRaises
| GetMonitors (mons : list Monitor).

Inductive DetectLog :=
| DetectQuiet
| WarnNotInstalled      (* "screeninfo not installed; assuming 1920x1080 at (0,0)" *)
| LogDetectFailed.      (* "Failed to detect primary monitor: %s" *)

Definition ASSUMED_REGION : MonitorRegion :=
  {| width := 1920; height := 1080; offset_x := 0; offset_y := 0 |}.

Definition is_primary (m : Monitor) : bool := getattr (mon_is_primary m) false.

Definition at_origin (m : Monitor) : bool :=
  (getattr (mon_x m) 0 =? 0) && (getattr (mon_y m) 0 =? 0).

Definition region_of (m : Monitor) : MonitorRegion := {|
  width := getattr (mon_width m) 1920;
  height := getattr (mon_height m) 1080;
  offset_x := getattr (mon_x m) 0;
  offset_y := getattr (mon_y m) 0
|}.

(** The [for] loop stops at the first monitor flagged primary.  Without
    one, [next(<those at the origin>, mons[0])] evaluates [mons[0]] first:
    on an empty list that is an [IndexError], caught by the [except]. *)
Definition detect_primary_monitor (si : Screeninfo) : MonitorRegion * DetectLog :=
  match si with
  | NoScreeninfo => (ASSUMED_REGION, WarnNotInstalled)
  | GetMonitorsRaises => (ASSUMED_REGION, LogDetectFailed)
  | GetMonitors mons =>
      match find is_primary mons with
      | Some primary => (region_of primary, DetectQuiet)
      | None =>
          match mons with
          | [] => (ASSUMED_REGION, LogDetectFailed)
          | first :: _ =>
              match find at_origin mons with
              | Some m => (region_of m, DetectQuiet)
              | None => (region_of first, DetectQuiet)
              end
          end
      end
  end.

(* ================================================================= *)
(** ** [main]: the configuration, and [Recorder._build_ffmpeg_record_cmd] *)

(** What [parse_args] returns. *)
Record Args := {
  arg_clip_length : Z;
  arg_segment_time : Z;
  arg_framerate : Z;
  arg_encoder : pystr;
  arg_preset : pystr;
  arg_verbose : bool
}.

(** The [Config(...)] call of [main]; [min_free_gb] keeps its default. *)
Definition config_of_args (ffmpeg : pystr) (args : Args) : Config := {|
  ffmpeg_path := ffmpeg;
  clip_length := arg_clip_length args;
  segment_time := arg_segment_time args;
  framerate := arg_framerate args;
  encoder := arg_encoder args;
  preset := arg_preset args;
  gop := Z.max 30 (arg_framerate args * 2);
  min_free_gb := 2
|}.

(** [platform.system().lower()] *)
Inductive Platform := Windows | Darwin | OtherSystem.

(** One element of the argument list. *)
Inductive Arg :=
| Lit (s : string)                          (* a literal of the source *)
| Str (s : pystr)                           (* a configured string *)
| Int (n : Z)                               (* str(n) *)
| Size (w h : Z)                            (* f"{w}x{h}" *)
| X11Display (display : pystr) (x y : Z)    (* f"{display}+{x},{y}" *)
| OutPattern.                               (* str(buffer_dir / "buf-%05d.ts") *)

Definition common_video (cfg : Config) : list Arg :=
  [Lit "-c:v"; Str (encoder cfg); Lit "-preset"; Str (preset cfg);
   Lit "-tune"; Lit "zerolatency"; Lit "-pix_fmt"; Lit "yuv420p";
   Lit "-g"; Int (gop cfg); Lit "-keyint_min"; Int (gop cfg);
   Lit "-sc_threshold"; Lit "0"].

Definition segmenter (cfg : Config) : list Arg :=
  [Lit "-f"; Lit "segment"; Lit "-segment_time"; Int (segment_time cfg);
   Lit "-reset_timestamps"; Lit "1"; Lit "-segment_format"; Lit "mpegts";
   OutPattern].

(** [display] is [os.environ.get("DISPLAY", ":0.0")]. *)
Definition build_ffmpeg_record_cmd (cfg : Config) (r : MonitorRegion)
    (system : Platform) (display : pystr) : list Arg :=
  match system with
  | Windows =>
      let input_sec :=
        [Lit "-f"; Lit "gdigrab"; Lit "-framerate"; Int (framerate cfg);
         Lit "-offset_x"; Int (offset_x r); Lit "-offset_y"; Int (offset_y r);
         Lit "-video_size"; Size (width r) (height r);
         Lit "-draw_mouse"; Lit "1"; Lit "-i"; Lit "desktop"] in
      Str (ffmpeg_path cfg) :: input_sec ++ common_video cfg ++ segmenter cfg
  | Darwin =>
      let input_sec :=
        [Lit "-f"; Lit "avfoundation"; Lit "-framerate"; Int (framerate cfg);
         Lit "-capture_cursor"; Lit "1";
         Lit "-video_size"; Size (width r) (height r);
         Lit "-i"; Lit "1:none"] in
      Str (ffmpeg_path cfg) :: input_sec ++ common_video cfg ++ segmenter cfg
  | OtherSystem =>
      let input_sec :=
        [Lit "-f"; Lit "x11grab"; Lit "-framerate"; Int (framerate cfg);
         Lit "-video_size"; Size (width r) (height r);
         Lit "-i"; X11Display display (offset_x r) (offset_y r)] in
      Str (ffmpeg_path cfg) :: input_sec ++ common_video cfg ++ segmenter cfg
  end.

(** The argument that follows the first occurrence of an option. *)
Fixpoint value_of (option_name : string) (cmd : list Arg) : option Arg :=
  match cmd with
  | [] => None
  | a :: t =>
      match a, t with
      | Lit f, v :: _ => if String.eqb f option_name then Some v else value_of option_name t
      | _, _ => value_of option_name t
      end
  end.

(* ================================================================= *)
(** ** [Recorder.start] and [Recorder.stop] *)

(** The recorder and its child process.  [child_alive] is what the next
    [proc.poll()] will find: [ffmpeg] may have exited on its own since it
    was started. *)
Record Recorder := {
  has_proc : bool;             (* self.proc is not None *)
  child_alive : bool;          (* proc.poll() is None *)
  stop_event_set : bool;
  cleanup_thread_started : bool
}.

(** What the child and the operating system do. *)
Record ProcWorld := {
  popen_fails : bool;          (* Popen raises (ffmpeg cannot be started) *)
  child_exits_early : bool;    (* ffmpeg exits on its own before stop() is called *)
  terminate_fails : bool;      (* proc.terminate() raises *)
  exits_in_time : bool;        (* after terminate, the child exits within 5 s *)
  kill_fails : bool            (* proc.kill() raises *)
}.

Inductive ProcEvent :=
| PevMkdirBuffer
| PevPopen
| PevCleanupThread
| PevLogStarted
| PevLogStopping
| PevTerminate
| PevWait
| PevKill.

Definition new_recorder : Recorder := {|
  has_proc := false;
  child_alive := false;
  stop_event_set := false;
  cleanup_thread_started := false
|}.

(** [Recorder.start]: an [OSError] of [Popen] is not caught; the cleanup
    thread is created after the process.  The child that was started is
    still running at the next [poll()] unless it exits on its own first. *)
Definition recorder_start (w : ProcWorld) (r : Recorder)
  : outcome unit * Recorder * list ProcEvent :=
  if popen_fails w then
    (Raises OSError, r, [PevMkdirBuffer; PevPopen])
  else
    (Returns tt,
     {| has_proc := true;
        child_alive := negb (child_exits_early w);
        stop_event_set := stop_event_set r;
        cleanup_thread_started := true |},
     [PevMkdirBuffer; PevPopen; PevCleanupThread; PevLogStarted]).

Definition recorder_after_stop (alive : bool) (r : Recorder) : Recorder := {|
  has_proc := false;
  child_alive := alive;
  stop_event_set := true;
  cleanup_thread_started := cleanup_thread_started r
|}.

(** [Recorder.stop]: [terminate], [wait(timeout=5)], [kill] on a timeout;
    whatever these raise is swallowed, and [self.proc] is cleared. *)
Definition recorder_stop (w : ProcWorld) (r : Recorder) : Recorder * list ProcEvent :=
  if has_proc r && child_alive r then
    if terminate_fails w then
      (recorder_after_stop true r, [PevLogStopping; PevTerminate])
    else if exits_in_time w then
      (recorder_after_stop false r, [PevLogStopping; PevTerminate; PevWait])
    else if kill_fails w then
      (recorder_after_stop true r, [PevLogStopping; PevTerminate; PevWait; PevKill])
    else
      (recorder_after_stop false r, [PevLogStopping; PevTerminate; PevWait; PevKill])
  else
    (recorder_after_stop (child_alive r) r, []).

(* ================================================================= *)
(** * Properties *)

Ltac py_unfold :=
  unfold save_clip, cleanup_loop, call, save_clip_body, cleanup_tick,
    disk_usage_free, list_segments, write_concat_list, check_call, unlink,
    log, notify, only_called_process_error, pass_on_exception,
    try_finally, try_except, bind, emit, ret, return_, raise, get_fs, modify_fs.

Example sanitize_test_basic :
  Sanitize.sanitize_filename_component Sanitize.ascii_table (lit "My Awesome Game: Level #1!")
  = lit "My_Awesome_Game_Level_1".
Proof. reflexivity. Qed.

(** ** Arithmetic of the segment counts *)

Lemma needed_segments_some (cfg : Config) (length : Z) :
  segment_time cfg <> 0 ->
  needed_segments cfg length
  = Some (Z.max 1 (Z.quot (length + segment_time cfg - 1) (segment_time cfg))).
Proof.
  intros Hs. unfold needed_segments, int_truediv.
  destruct (Z.eqb_spec (segment_time cfg) 0); [contradiction | reflexivity].
Qed.

(** On positive lengths the truncated quotient is the ceiling. *)
Lemma quot_is_ceil (l s : Z) :
  0 < s -> 0 < l -> Z.quot (l + s - 1) s = ceil_div l s.
Proof.
  intros Hs Hl. unfold ceil_div.
  rewrite Z.quot_div_nonneg by lia.
  assert (H1 := Z.div_mod (l + s - 1) s ltac:(lia)).
  assert (H2 := Z.mod_pos_bound (l + s - 1) s Hs).
  assert (H3 := Z.div_mod (- l) s ltac:(lia)).
  assert (H4 := Z.mod_pos_bound (- l) s Hs).
  nia.
Qed.

(** On lengths below one segment, both are at most 0. *)
Lemma needed_segments_nonpositive (cfg : Config) (length : Z) :
  0 < segment_time cfg -> length <= 0 ->
  needed_segments cfg length = Some 1 /\ Z.max 1 (ceil_div length (segment_time cfg)) = 1.
Proof.
  intros Hs Hl. rewrite needed_segments_some by lia. split.
  - f_equal. apply Z.max_l.
    destruct (Z_le_gt_dec 0 (length + segment_time cfg - 1)).
    + rewrite Z.quot_small; lia.
    + assert (Z.quot (length + segment_time cfg - 1) (segment_time cfg) <= 0); [|lia].
      apply Z.quot_le_upper_bound; lia.
  - apply Z.max_l. unfold ceil_div.
    assert (0 <= (- length) / segment_time cfg) by (apply Z.div_pos; lia). lia.
Qed.

Lemma needed_segments_ceil (cfg : Config) (length : Z) :
  0 < segment_time cfg ->
  needed_segments cfg length = Some (Z.max 1 (ceil_div length (segment_time cfg))).
Proof.
  intros Hs. destruct (Z_lt_le_dec 0 length).
  - rewrite needed_segments_some by lia. now rewrite quot_is_ceil.
  - destruct (needed_segments_nonpositive cfg length Hs) as [-> ->]; auto.
Qed.

(** ** Files *)

Lemma Path_eqb_eq (p q : Path) : Path_eqb p q = true <-> p = q.
Proof.
  destruct p, q; simpl; split; intros H; try discriminate;
    try (apply Z.eqb_eq in H; now subst);
    try (inversion H; subst; now rewrite ?Z.eqb_refl).
  - apply andb_prop in H as [H Hl]. apply andb_prop in H as [Ht Hn].
    apply Z.eqb_eq in Ht, Hn. subst.
    destruct (list_eq_dec Z.eq_dec label label0); [now subst | discriminate].
  - inversion H; subst. rewrite !Z.eqb_refl. simpl.
    destruct (list_eq_dec Z.eq_dec label0 label0); [reflexivity | contradiction].
Qed.

Lemma Path_eqb_refl (p : Path) : Path_eqb p p = true.
Proof. now apply Path_eqb_eq. Qed.

Lemma lookup_write_same (p : Path) (c : Content) fl :
  lookup_file p (write_file p c fl) = Some c.
Proof. unfold write_file, lookup_file. now rewrite Path_eqb_refl. Qed.

Lemma lookup_remove_same (p : Path) fl : lookup_file p (remove_file p fl) = None.
Proof.
  unfold lookup_file, remove_file.
  induction fl as [|[q c] t IH]; simpl; auto.
  destruct (Path_eqb p q) eqn:E; simpl; auto. now rewrite E.
Qed.

Lemma lookup_remove_other (p q : Path) fl :
  p <> q -> lookup_file p (remove_file q fl) = lookup_file p fl.
Proof.
  intros Hpq. unfold lookup_file, remove_file.
  induction fl as [|[x c] t IH]; simpl; auto.
  destruct (Path_eqb q x) eqn:E; simpl.
  - apply Path_eqb_eq in E. subst x.
    destruct (Path_eqb p q) eqn:E'; auto. apply Path_eqb_eq in E'. contradiction.
  - now rewrite IH.
Qed.

Lemma lookup_write_other (p q : Path) (c : Content) fl :
  p <> q -> lookup_file p (write_file q c fl) = lookup_file p fl.
Proof.
  intros Hpq. unfold write_file.
  change (lookup_file p ((q, c) :: remove_file q fl))
    with (if Path_eqb p q then Some c else lookup_file p (remove_file q fl)).
  destruct (Path_eqb p q) eqn:E.
  - apply Path_eqb_eq in E. contradiction.
  - now apply lookup_remove_other.
Qed.

Lemma tmp_is_not_clip (n : Z) (cfg : Config) (env : Env) (l : Z) :
  TmpList n <> out_path_of cfg env l.
Proof. discriminate. Qed.

(** ** [save_clip], path by path *)

Section SaveClipPaths.
Variables (cfg : Config) (env : Env) (length_seconds : option Z) (fs : FS).

Let length := effective_length cfg length_seconds.
Let out := out_path_of cfg env length.
Let lp := TmpList (tmp_name env).

Variable needed : Z.
Hypothesis Hneeded : needed_segments cfg length = Some needed.

(** The probe reports too little: nothing else happens. *)
Lemma save_clip_low_space :
  probe_reports_below env ASSEMBLY_FLOOR = true ->
  save_clip cfg env length_seconds fs
  = (Returns None, fs, [EvDiskUsage; EvLog ERROR MsgInsufficientSpace]).
Proof.
  unfold probe_reports_below. intros Hp.
  py_unfold. fold length. rewrite Hneeded.
  destruct (psutil env); try discriminate. simpl. now rewrite Hp.
Qed.

Hypothesis Hprobe : probe_reports_below env ASSEMBLY_FLOOR = false.

(** The buffer is empty. *)
Lemma save_clip_no_segments :
  buffer fs = [] ->
  save_clip cfg env length_seconds fs
  = (Returns None, fs, probe_events env ++ [EvGlob; EvLog ERROR MsgNoSegments]).
Proof.
  unfold probe_reports_below, probe_events in *. intros Hb.
  py_unfold. fold length. rewrite Hneeded.
  destruct (psutil env); simpl; rewrite ?Hprobe, ?Hb; simpl; reflexivity.
Qed.

Variables (newest : Seg) (older : list Seg).
Hypothesis Hsegs : sorted st_mtime true (buffer fs) = newest :: older.

Let lines := map seg_path (rev (slice_to needed (newest :: older))).
Let prologue : list Event :=
  probe_events env ++
  [EvGlob; EvMkdir; EvCreate lp lines;
   EvLog INFO (MsgAssembling length out);
   EvLog DEBUG (MsgConcatCopyCmd (copy_cmd cfg lp out));
   EvRun (copy_cmd cfg lp out)].
Let fallback : list Event :=
  [EvLog WARNING MsgFastConcatFailed;
   EvLog DEBUG (MsgConcatReencCmd (reenc_cmd cfg lp out));
   EvRun (reenc_cmd cfg lp out)].
Let listed : list (Path * Content) := write_file lp (ManifestLines lines) (files fs).

Ltac run_save :=
  unfold prologue, fallback, listed, lines, lp, out in *;
  unfold probe_reports_below, probe_events in *;
  py_unfold; fold length; rewrite Hneeded;
  destruct (psutil env); simpl; rewrite ?Hprobe; simpl;
  rewrite Hsegs; simpl; rewrite ?lookup_write_same; simpl.

Lemma save_clip_fast_path :
  run_copy env = Exit 0 ->
  save_clip cfg env length_seconds fs
  = (Returns (Some out),
     {| buffer := buffer fs;
        files := remove_file lp (write_file out (Video true (StreamCopy true) lines) listed) |},
     prologue ++ [EvLog INFO (MsgClipSaved out); EvNotify out; EvUnlink lp]).
Proof.
  intros Hc. run_save; rewrite Hc; simpl; rewrite ?lookup_write_same; simpl; reflexivity.
Qed.

Let partial : list (Path * Content) :=
  write_file out (Video false (StreamCopy true) lines) listed.
Let reencoded (ok : bool) : FS :=
  {| buffer := buffer fs;
     files := remove_file lp (remove_file lp
                (write_file out
                   (Video ok (Reencode (encoder cfg) (preset cfg) (lit "yuv420p")) lines)
                   partial)) |}.

Ltac run_fallback Hc Hne :=
  unfold reencoded, partial; run_save; rewrite Hc; simpl;
  rewrite ?lookup_write_same; simpl; rewrite Hne; simpl.

Ltac run_reencode Hr :=
  rewrite Hr; simpl;
  rewrite ?(lookup_write_other _ _ _ _ (tmp_is_not_clip _ _ _ _)), ?lookup_write_same;
  simpl.

Lemma save_clip_reencoded_path (code : Z) :
  run_copy env = Exit code -> (code =? 0) = false ->
  run_reenc env = Exit 0 ->
  save_clip cfg env length_seconds fs
  = (Returns (Some out), reencoded true,
     prologue ++ fallback
     ++ [EvLog INFO (MsgClipSavedReenc out); EvNotify out; EvUnlink lp; EvUnlink lp]).
Proof.
  intros Hc Hne Hr. run_fallback Hc Hne; run_reencode Hr; reflexivity.
Qed.

Lemma save_clip_double_failure (code code' : Z) :
  run_copy env = Exit code -> (code =? 0) = false ->
  run_reenc env = Exit code' -> (code' =? 0) = false ->
  save_clip cfg env length_seconds fs
  = (Returns None, reencoded false,
     prologue ++ fallback
     ++ [EvLog ERROR (MsgFailedAssemble (CalledProcessError code'));
         EvUnlink lp; EvUnlink lp]).
Proof.
  intros Hc Hne Hr Hne'.
  run_fallback Hc Hne; run_reencode Hr; rewrite Hne'; simpl; reflexivity.
Qed.

(** [ffmpeg] cannot be started: the [OSError] is not caught. *)
Lemma save_clip_copy_not_started :
  run_copy env = SpawnError ->
  save_clip cfg env length_seconds fs
  = (Raises OSError,
     {| buffer := buffer fs; files := remove_file lp listed |},
     prologue ++ [EvUnlink lp]).
Proof.
  intros Hc. run_save; rewrite Hc; simpl; reflexivity.
Qed.

Lemma save_clip_reenc_not_started (code : Z) :
  run_copy env = Exit code -> (code =? 0) = false ->
  run_reenc env = SpawnError ->
  save_clip cfg env length_seconds fs
  = (Raises OSError,
     {| buffer := buffer fs; files := remove_file lp (remove_file lp partial) |},
     prologue ++ fallback ++ [EvUnlink lp; EvUnlink lp]).
Proof.
  intros Hc Hne Hr. run_fallback Hc Hne; run_reencode Hr; reflexivity.
Qed.

End SaveClipPaths.

(** ** [sorted]: a stable sort, unique on distinct keys *)

Section SortedFacts.
Context {A : Type} (key : A -> Z).

Let le_key (a b : A) : Prop := key a <= key b.
Let lt_key (a b : A) : Prop := key a < key b.

Lemma insert_by_perm (x : A) (l : list A) : Permutation (insert_by key x l) (x :: l).
Proof.
  induction l as [|y t IH]; simpl; auto.
  destruct (key x <=? key y); auto.
  rewrite IH. apply perm_swap.
Qed.

Lemma sort_by_perm (l : list A) : Permutation (sort_by key l) l.
Proof.
  induction l as [|x t IH]; simpl; auto.
  rewrite insert_by_perm. now constructor.
Qed.

Lemma sort_by_length (l : list A) : List.length (sort_by key l) = List.length l.
Proof. apply Permutation_length, sort_by_perm. Qed.

Lemma insert_by_sorted (x : A) (l : list A) :
  StronglySorted le_key l -> StronglySorted le_key (insert_by key x l).
Proof.
  induction 1 as [|y t Ht IH Hy]; simpl.
  - repeat constructor.
  - destruct (Z.leb_spec (key x) (key y)).
    + constructor; [now constructor|].
      constructor; [assumption|].
      eapply Forall_impl; [|exact Hy]. unfold le_key. intros; simpl in *; lia.
    + constructor; [assumption|].
      eapply Permutation_Forall; [symmetry; apply insert_by_perm|].
      constructor; [unfold le_key; lia | assumption].
Qed.

Lemma sort_by_sorted (l : list A) : StronglySorted le_key (sort_by key l).
Proof.
  induction l; simpl; [constructor | now apply insert_by_sorted].
Qed.

(** Two orderings of the same files agree when the keys are distinct. *)
Lemma sorted_unique (l1 l2 : list A) :
  StronglySorted le_key l1 -> StronglySorted lt_key l2 ->
  Permutation l1 l2 -> l1 = l2.
Proof.
  intros H1. revert l2.
  induction H1 as [|a t1 Ht1 IH Ha]; intros l2 H2 HP.
  - now apply Permutation_nil in HP.
  - destruct l2 as [|b t2]; [now apply Permutation_sym, Permutation_nil in HP|].
    apply StronglySorted_inv in H2 as [Ht2 Hb].
    assert (a = b) as ->.
    { assert (Ia : In a (b :: t2)) by (eapply Permutation_in; [exact HP | now left]).
      assert (Ib : In b (a :: t1))
        by (eapply Permutation_in; [symmetry; exact HP | now left]).
      destruct Ia as [|Ia]; [congruence|].
      destruct Ib as [|Ib]; [congruence|].
      rewrite Forall_forall in Ha, Hb.
      specialize (Ha _ Ib). specialize (Hb _ Ia). unfold le_key, lt_key in *. lia. }
    f_equal. apply IH; [assumption|]. eapply Permutation_cons_inv; exact HP.
Qed.

Lemma sort_by_of_perm (l asc : list A) :
  Permutation l asc -> StronglySorted lt_key asc -> sort_by key l = asc.
Proof.
  intros HP Hs. apply sorted_unique; [apply sort_by_sorted | assumption |].
  now rewrite sort_by_perm.
Qed.

(** Newest first: the chronological order, reversed. *)
Lemma sorted_reverse_of_perm (l asc : list A) :
  Permutation l asc -> StronglySorted lt_key asc ->
  sorted key true l = rev asc /\ sorted key false l = asc.
Proof.
  intros HP Hs. unfold sorted. split.
  - f_equal. apply sort_by_of_perm; [|assumption].
    now rewrite <- Permutation_rev.
  - now apply sort_by_of_perm.
Qed.

Lemma sorted_length (r : bool) (l : list A) :
  List.length (sorted key r l) = List.length l.
Proof.
  unfold sorted. destruct r; rewrite ?length_rev, sort_by_length, ?length_rev; reflexivity.
Qed.




End SortedFacts.

(** ** The window of segments *)

Lemma skipn_buf_range (j : nat) : forall (lo : Z) (n : nat),
  skipn j (buf_range lo n) = buf_range (lo + Z.of_nat j) (n - j).
Proof.
  induction j as [|j IH]; intros lo n.
  - simpl. rewrite Z.add_0_r, Nat.sub_0_r. reflexivity.
  - destruct n as [|n]; [reflexivity|].
    cbn [skipn buf_range Nat.sub]. rewrite IH. f_equal. lia.
Qed.

Lemma buf_range_length (n : nat) : forall lo, List.length (buf_range lo n) = n.
Proof. induction n; intros; simpl; auto. Qed.

(** The [needed] newest, oldest first: the tail of the chronological list. *)
Lemma newest_window (asc : list Seg) (needed : Z) :
  rev (slice_to needed (rev asc))
  = skipn (List.length asc - Z.to_nat needed) asc.
Proof. unfold slice_to. rewrite firstn_rev. apply rev_involutive. Qed.

Lemma window_paths (asc : list Seg) (N : nat) (needed : Z) :
  map seg_path asc = buf_range 1 N ->
  map seg_path (rev (slice_to needed (rev asc)))
  = buf_range (1 + Z.of_nat (N - Z.to_nat needed)) (N - (N - Z.to_nat needed)).
Proof.
  intros Hidx. rewrite newest_window.
  assert (HN : List.length asc = N).
  { rewrite <- (length_map seg_path), Hidx. apply buf_range_length. }
  rewrite HN. rewrite <- skipn_map, Hidx. apply skipn_buf_range.
Qed.

(** Splits a run of [save_clip] that reaches the concatenation into the
    five ways the two [ffmpeg] processes can end. *)
Ltac save_clip_cases cfg env ls fs Hn Hp Hs :=
  let c := fresh "code" in
  let c' := fresh "code'" in
  let Hc := fresh "Hcopy" in
  let Hr := fresh "Hreenc" in
  let Hz := fresh "Hzero" in
  let Hz' := fresh "Hzero'" in
  destruct (run_copy env) as [c|] eqn:Hc;
  [ destruct (c =? 0) eqn:Hz;
    [ apply Z.eqb_eq in Hz; subst c;
      rewrite (save_clip_fast_path cfg env ls fs _ Hn Hp _ _ Hs Hc)
    | destruct (run_reenc env) as [c'|] eqn:Hr;
      [ destruct (c' =? 0) eqn:Hz';
        [ apply Z.eqb_eq in Hz'; subst c';
          rewrite (save_clip_reencoded_path cfg env ls fs _ Hn Hp _ _ Hs _ Hc Hz Hr)
        | rewrite (save_clip_double_failure cfg env ls fs _ Hn Hp _ _ Hs _ _ Hc Hz Hr Hz') ]
      | rewrite (save_clip_reenc_not_started cfg env ls fs _ Hn Hp _ _ Hs _ Hc Hz Hr) ] ]
  | rewrite (save_clip_copy_not_started cfg env ls fs _ Hn Hp _ _ Hs Hc) ].

Ltac probe_cases env :=
  unfold probe_events; cbn [psutil with_ffmpeg with_probe]; destruct (psutil env); simpl.

Lemma nonempty_rev {A} (l : list A) :
  l <> [] -> exists x t, rev l = x :: t.
Proof.
  intros Hl. destruct (rev l) as [|x t] eqn:E; [|eauto].
  apply (f_equal (@rev A)) in E. rewrite rev_involutive in E. contradiction.
Qed.

(** C2, as claimed, fails at a requested duration of [0]: the claim
    counts [max(1, ceil(0 / 10)) = 1] segment, the code takes the
    configured [clip_length] instead and lists the 12 newest. *)
Lemma save_clip_zero_duration_counts_clip_length :
  let '(_, _, evs) := save_clip default_config env0 (Some 0) (fs_with 15) in
  Z.max 1 (ceil_div 0 (segment_time default_config)) = 1
  /\ needed_segments default_config (effective_length default_config (Some 0)) = Some 12
  /\ manifests evs = [buf_range 4 12]
  /\ manifests evs <> [buf_range 15 1].
Proof. vm_compute. repeat split. discriminate. Qed.

(** C2, amended.  Let [L] be the requested duration, or the configured
    [clip_length] when the duration is [0] or not given, with
    [|L + segment_time - 1| < 2^53] so that the float quotient of the
    source is exact.  With segments [buf-1 .. buf-N] in chronological
    order, [needed_segments] is [m = max(1, ceil(L / segment_time))]; the
    concat list names exactly [buf-(N-m+1) .. buf-N] in ascending order
    when [m <= N], and all of [buf-1 .. buf-N] when [m > N]; the run never
    ends on the no-segments error, and returns the clip whenever the
    concatenation succeeds. *)
Theorem save_clip_window (cfg : Config) (env : Env) (ls : option Z) (fs : FS)
    (asc : list Seg) (N : nat) :
  0 < segment_time cfg ->
  Z.abs (effective_length cfg ls + segment_time cfg - 1) < 2 ^ 53 ->
  (1 <= N)%nat ->
  Permutation (buffer fs) asc ->
  map seg_path asc = buf_range 1 N ->
  StronglySorted (fun a b => st_mtime a < st_mtime b) asc ->
  probe_reports_below env ASSEMBLY_FLOOR = false ->
  let L := effective_length cfg ls in
  let m := Z.max 1 (ceil_div L (segment_time cfg)) in
  let '(r, _, evs) := save_clip cfg env ls fs in
  (forall d, ls = Some d -> d <> 0 -> L = d)
  /\ (ls = None \/ ls = Some 0 -> L = clip_length cfg)
  /\ needed_segments cfg L = Some m
  /\ (m <= Z.of_nat N ->
      manifests evs = [buf_range (Z.of_nat N - m + 1) (Z.to_nat m)])
  /\ (Z.of_nat N < m -> manifests evs = [buf_range 1 N])
  /\ ~ In (EvLog ERROR MsgNoSegments) evs
  /\ (concat_succeeds env = true -> r = Returns (Some (out_path_of cfg env L))).
Proof.
  intros Hs Hexact HN HP Hidx Hchron Hprobe L m.
  assert (Hgiven : forall d, ls = Some d -> d <> 0 -> L = d).
  { intros d -> Hd. unfold L, effective_length.
    destruct (Z.eqb_spec d 0); [contradiction | reflexivity]. }
  assert (Hdefault : ls = None \/ ls = Some 0 -> L = clip_length cfg).
  { intros [-> | ->]; reflexivity. }
  assert (Hn : needed_segments cfg L = Some m) by now apply needed_segments_ceil.
  destruct (sorted_reverse_of_perm st_mtime _ _ HP Hchron) as [Hsorted _].
  assert (Hne : asc <> []).
  { intros ->. destruct N; [lia | discriminate]. }
  destruct (nonempty_rev asc Hne) as (newest & older & Hrev).
  rewrite Hrev in Hsorted.
  assert (Hlines : map seg_path (rev (slice_to m (newest :: older)))
                   = buf_range (1 + Z.of_nat (N - Z.to_nat m)) (N - (N - Z.to_nat m))).
  { rewrite <- Hrev. now apply window_paths. }
  assert (Hm : 1 <= m) by (unfold m; lia).
  assert (Hle : m <= Z.of_nat N ->
                buf_range (1 + Z.of_nat (N - Z.to_nat m)) (N - (N - Z.to_nat m))
                = buf_range (Z.of_nat N - m + 1) (Z.to_nat m)).
  { intros H. f_equal; lia. }
  assert (Hgt : Z.of_nat N < m ->
                buf_range (1 + Z.of_nat (N - Z.to_nat m)) (N - (N - Z.to_nat m))
                = buf_range 1 N).
  { intros H. f_equal; lia. }
  unfold concat_succeeds. unfold L in Hn.
  save_clip_cases cfg env ls fs Hn Hprobe Hsorted;
    (split; [exact Hgiven|]);
    (split; [exact Hdefault|]);
    (split; [exact Hn|]);
    rewrite ?Hzero, ?Hzero';
    (split; [intros H; probe_cases env; rewrite Hlines; now rewrite Hle|]);
    (split; [intros H; probe_cases env; rewrite Hlines; now rewrite Hgt|]);
    (split; [probe_cases env; intuition discriminate|]);
    intros H; try discriminate; reflexivity.
Qed.

Lemma segs_from_chronological (n : nat) : forall lo,
  StronglySorted (fun a b => st_mtime a < st_mtime b) (segs_from lo n)
  /\ Forall (fun p => lo <= seg_index p /\ st_mtime p = 1000 + 10 * seg_index p) (segs_from lo n).
Proof.
  induction n as [|n IH]; intros lo; cbn [segs_from].
  - split; constructor.
  - destruct (IH (lo + 1)) as [Hs Hf]. split.
    + constructor; [assumption|].
      eapply Forall_impl; [|exact Hf]. intros p [H1 H2]. cbn [st_mtime seg_index]. lia.
    + constructor; [cbn [st_mtime seg_index]; lia|].
      eapply Forall_impl; [|exact Hf]. intros p [H1 H2]. lia.
Qed.

Lemma segs_from_paths (n : nat) : forall lo,
  map seg_path (segs_from lo n) = buf_range lo n.
Proof. induction n; intros; simpl; [|rewrite IHn]; reflexivity. Qed.

(** The scenario of the specification: 15 live segments, [save(120)]. *)
Lemma save_clip_window_witness :
  let '(r, _, evs) := save_clip default_config env0 (Some 120) (fs_with 15) in
  manifests evs = [buf_range 4 12]
  /\ r = Returns (Some (out_path_of default_config env0 120)).
Proof.
  generalize (save_clip_window default_config env0 (Some 120) (fs_with 15) (segs_from 1 15) 15
                ltac:(reflexivity) ltac:(reflexivity) ltac:(lia)
                (Permutation_refl _) (segs_from_paths 15 1)
                (proj1 (segs_from_chronological 15 1)) eq_refl).
  cbv zeta.
  destruct (save_clip default_config env0 (Some 120) (fs_with 15)) as [[r fs'] evs].
  intros (_ & _ & _ & Hle & _ & _ & Hok). split.
  - apply Hle. vm_compute. discriminate.
  - apply Hok. reflexivity.
Defined.

(** ** Requests that do not reach the concatenation *)

Lemma save_clip_zero_division (cfg : Config) (env : Env) (ls : option Z) (fs : FS) :
  needed_segments cfg (effective_length cfg ls) = None ->
  save_clip cfg env ls fs = (Raises ZeroDivisionError, fs, []).
Proof. intros H. py_unfold. now rewrite H. Qed.

Lemma needed_segments_none (cfg : Config) (length : Z) :
  needed_segments cfg length = None -> segment_time cfg = 0.
Proof.
  unfold needed_segments, int_truediv.
  destruct (Z.eqb_spec (segment_time cfg) 0); [auto | discriminate].
Qed.

Lemma sorted_nil {A} (key : A -> Z) (r : bool) (l : list A) :
  sorted key r l = [] -> l = [].
Proof.
  intros H. apply (f_equal (@List.length A)) in H.
  rewrite sorted_length in H. now destruct l.
Qed.





(** ** Non-positive durations *)




(** ** The fallback *)



(** ** The concat list is temporary *)

Ltac last_event :=
  match goal with
  | |- exists before, ?l = before ++ [?x] => exists (removelast l); reflexivity
  end.

Ltac created_in H :=
  simpl in H;
  repeat (first [contradiction | discriminate H | destruct H as [H|H]]);
  try (inversion H; subst; clear H).

(** C8. Whatever way [save_clip] ends once it has written its concat
    list (fast-path success, fallback success, double failure, or an
    [ffmpeg] that cannot be started), the list file is gone from the file
    system at the end, and its [unlink] is the last thing the call does. *)
Theorem manifest_always_deleted (cfg : Config) (env : Env) (ls : option Z) (fs : FS) :
  let '(_, fs', evs) := save_clip cfg env ls fs in
  forall p lines,
    In (EvCreate p lines) evs ->
    lookup_file p (files fs') = None
    /\ (exists before, evs = before ++ [EvUnlink p]).
Proof.
  destruct (needed_segments cfg (effective_length cfg ls)) as [needed|] eqn:Hn.
  2:{ rewrite (save_clip_zero_division cfg env ls fs Hn). intros p lines []. }
  destruct (probe_reports_below env ASSEMBLY_FLOOR) eqn:Hp.
  { rewrite (save_clip_low_space cfg env ls fs _ Hn Hp).
    intros p lines Hin. created_in Hin. }
  destruct (sorted st_mtime true (buffer fs)) as [|newest older] eqn:Hsorted.
  { rewrite (save_clip_no_segments cfg env ls fs _ Hn Hp (sorted_nil _ _ _ Hsorted)).
    intros p lines Hin. revert Hin. probe_cases env; intros Hin; created_in Hin. }
  save_clip_cases cfg env ls fs Hn Hp Hsorted;
    intros p lines Hin; revert Hin; probe_cases env; intros Hin; created_in Hin;
    (split; [cbn [files]; apply lookup_remove_same | last_event]).
Qed.

Lemma manifest_always_deleted_witness :
  (let '(_, fs', evs) := save_clip default_config env0 None (fs_with 15) in
   lookup_file (TmpList 7) (files fs') = None)
  /\ (let '(_, fs', evs) :=
        save_clip default_config (with_ffmpeg env0 (Exit 1) (Exit 0)) None (fs_with 15) in
      lookup_file (TmpList 7) (files fs') = None)
  /\ (let '(_, fs', evs) :=
        save_clip default_config (with_ffmpeg env0 (Exit 1) (Exit 1)) None (fs_with 15) in
      lookup_file (TmpList 7) (files fs') = None).
Proof.
  split; [|split].
  - generalize (manifest_always_deleted default_config env0 None (fs_with 15)).
    destruct (save_clip default_config env0 None (fs_with 15)) as [[r fs'] evs] eqn:E.
    intros H. apply (H (TmpList 7) (buf_range 4 12)).
    apply (f_equal snd) in E. simpl in E. rewrite <- E. vm_compute. tauto.
  - generalize (manifest_always_deleted default_config
                  (with_ffmpeg env0 (Exit 1) (Exit 0)) None (fs_with 15)).
    destruct (save_clip default_config (with_ffmpeg env0 (Exit 1) (Exit 0)) None (fs_with 15))
      as [[r fs'] evs] eqn:E.
    intros H. apply (H (TmpList 7) (buf_range 4 12)).
    apply (f_equal snd) in E. simpl in E. rewrite <- E. vm_compute. tauto.
  - generalize (manifest_always_deleted default_config
                  (with_ffmpeg env0 (Exit 1) (Exit 1)) None (fs_with 15)).
    destruct (save_clip default_config (with_ffmpeg env0 (Exit 1) (Exit 1)) None (fs_with 15))
      as [[r fs'] evs] eqn:E.
    intros H. apply (H (TmpList 7) (buf_range 4 12)).
    apply (f_equal snd) in E. simpl in E. rewrite <- E. vm_compute. tauto.
Defined.

(** ** One tick of the cleanup loop *)

Lemma for_each_unlink_guarded (l : list Seg) : forall fs : FS,
  for_each (R := unit) l (fun p => try_except (unlink (seg_path p)) pass_on_exception) fs
  = (Next tt, unlink_all l fs, unlink_events l).
Proof.
  induction l as [|p t IH]; intros fs; [reflexivity|].
  cbn [for_each]. unfold bind at 1.
  unfold try_except, unlink, pass_on_exception, bind, emit, modify_fs. simpl.
  rewrite IH. reflexivity.
Qed.

Lemma for_each_unlink (l : list Seg) : forall fs : FS,
  for_each (R := unit) l (fun p => unlink (seg_path p)) fs
  = (Next tt, unlink_all l fs, unlink_events l).
Proof.
  induction l as [|p t IH]; intros fs; [reflexivity|].
  cbn [for_each]. unfold bind at 1.
  unfold unlink, bind, emit, modify_fs. simpl.
  rewrite IH. reflexivity.
Qed.

(** What a tick does, by the state of the probe. *)
Lemma cleanup_tick_run (cfg : Config) (env : Env) (cap : Z) (fs : FS) :
  let segs := sorted st_mtime false (buffer fs) in
  let excess := capacity_excess cap fs in
  cleanup_tick cfg env cap fs
  = match psutil env with
    | Missing => (Next tt, capacity_pruned cap fs, EvGlob :: unlink_events excess)
    | Failing =>
        (Next tt, capacity_pruned cap fs, EvGlob :: unlink_events excess ++ [EvDiskUsage])
    | Working =>
        if below_min_free cfg (free_bytes env) && negb (len segs =? 0) then
          let count := Z.max 1 (len segs / 10) in
          (Next tt, unlink_all (slice_to count segs) (capacity_pruned cap fs),
           EvGlob :: unlink_events excess ++ EvDiskUsage
             :: unlink_events (slice_to count segs)
             ++ [EvLog WARNING (MsgLowDisk (free_bytes env) count)])
        else
          (Next tt, capacity_pruned cap fs, EvGlob :: unlink_events excess ++ [EvDiskUsage])
    end.
Proof.
  intros segs excess. subst excess.
  unfold cleanup_tick, capacity_pruned, capacity_excess. fold segs.
  unfold try_except at 1. unfold bind at 1. unfold list_segments at 1.
  unfold bind at 1. unfold emit at 1. unfold bind at 1. unfold get_fs, ret at 1.
  cbn beta iota. fold segs. cbn [app].
  unfold bind at 1.
  assert (Hprune :
    (if len segs >? cap
     then for_each (R := unit) (slice_to (len segs - cap) segs)
            (fun p => try_except (unlink (seg_path p)) pass_on_exception)
     else ret tt) fs
    = (Next tt,
       unlink_all (if len segs >? cap then slice_to (len segs - cap) segs else []) fs,
       unlink_events (if len segs >? cap then slice_to (len segs - cap) segs else []))).
  { destruct (len segs >? cap); [apply for_each_unlink_guarded | reflexivity]. }
  rewrite Hprune. clear Hprune.
  set (pruned := unlink_all _ fs). set (evs := unlink_events _).
  destruct (psutil env) eqn:Hps.
  - unfold ret. simpl. now rewrite app_nil_r.
  - unfold try_except, disk_usage_free, bind, emit, raise, pass_on_exception, ret.
    rewrite Hps. simpl. reflexivity.
  - unfold try_except at 1. unfold disk_usage_free, bind at 1.
    unfold bind at 1. unfold emit at 1. rewrite Hps. unfold ret at 1. cbn beta iota.
    destruct (below_min_free cfg (free_bytes env) && negb (len segs =? 0)).
    + unfold bind at 1. rewrite for_each_unlink. unfold log, emit. simpl. reflexivity.
    + unfold ret. simpl. reflexivity.
Qed.

(** ** Without a working probe *)





(** ** The capacity bound *)

(** On a clip length that is a multiple of the segment time, the bound is
    the one the specification gives. *)
Lemma capacity_exact (cfg : Config) (k : Z) :
  0 < segment_time cfg -> 0 <= k -> clip_length cfg = k * segment_time cfg ->
  capacity cfg = Some (ceil_div (clip_length cfg) (segment_time cfg) * 3).
Proof.
  intros Hs Hk Hc. unfold capacity, int_truediv, ceil_div.
  destruct (Z.eqb_spec (segment_time cfg) 0); [lia|].
  rewrite Hc. rewrite Z.quot_mul by lia.
  rewrite <- Z.mul_opp_l, Z.div_mul by lia.
  f_equal. lia.
Qed.

(** In general it is the quotient rounded down. *)
Lemma capacity_floor (cfg : Config) :
  0 < segment_time cfg -> 0 <= clip_length cfg ->
  capacity cfg = Some (clip_length cfg / segment_time cfg * 3).
Proof.
  intros Hs Hc. unfold capacity, int_truediv.
  destruct (Z.eqb_spec (segment_time cfg) 0); [lia|].
  now rewrite Z.quot_div_nonneg by lia.
Qed.

(** C3, on the code.  [capacity] truncates where the claim rounds up.
    With [clip_length = 5] and [segment_time = 10] the bound is [0], not
    [3]: a tick deletes every segment, although [save_clip] needs one.
    With 125 and 10 the bound is 36, not 39. *)
Theorem capacity_truncates_quotient :
  capacity (with_lengths default_config 5 10) = Some 0
  /\ ceil_div 5 10 * 3 = 3
  /\ needed_segments (with_lengths default_config 5 10) 5 = Some 1
  /\ (let '(_, fs', _) := cleanup_loop (with_lengths default_config 5 10) env0 1 (fs_with 5) in
      buffer fs' = [])
  /\ capacity (with_lengths default_config 125 10) = Some 36
  /\ ceil_div 125 10 * 3 = 39.
Proof. vm_compute. repeat split. Qed.

(** ** The low-disk prune *)

(** C4, on the code.  The scenario of the specification: 40 live
    segments, 1.5 GB free, [min_free_gb = 2], default capacity 36.  The
    capacity prune unlinks [buf-1 .. buf-4]; the low-disk prune then takes
    the first 4 of the listing made before that prune, the same four
    files, and logs 4 pruned segments.  36 segments remain, where 4
    deletions beyond the capacity prune would leave 32. *)
Theorem low_disk_prune_repeats_capacity_prune :
  let env := with_probe env0 Working (GIB + GIB / 2) in
  let '(_, fs', evs) := cleanup_loop default_config env 1 (fs_with 40) in
  capacity default_config = Some 36
  /\ buffer fs' = segs_from 5 36
  /\ len (buffer fs') = 36
  /\ unlinked evs = buf_range 1 4 ++ buf_range 1 4
  /\ In (EvLog WARNING (MsgLowDisk (GIB + GIB / 2) 4)) evs.
Proof. vm_compute. intuition. Qed.

(** ** Label sanitization *)

Import Sanitize.

Lemma In_dropwhile (p : Z -> bool) (c : Z) (s : pystr) :
  In c (dropwhile p s) -> In c s.
Proof.
  induction s as [|x t IH]; simpl; auto.
  destruct (p x); auto.
Qed.

Lemma In_strip (c : Z) (s : pystr) : In c (strip s) -> In c s.
Proof.
  unfold strip. intros H.
  apply in_rev, In_dropwhile, in_rev, In_dropwhile in H. exact H.
Qed.

Lemma In_collapsed (c : Z) (s : pystr) : forall b,
  In c (re_sub_runs isspace [SPACE] b s) -> c = SPACE \/ In c s.
Proof.
  induction s as [|x t IH]; intros b; simpl; [tauto|].
  destruct (isspace x).
  - intros H. apply in_app_or in H as [H|H].
    + destruct b; simpl in H; [contradiction|]. destruct H; [auto | contradiction].
    + destruct (IH _ H); auto.
  - intros [H|H]; [auto|]. destruct (IH _ H); auto.
Qed.

(** Replacing the runs of a class by nothing is filtering the class out. *)
Lemma re_sub_runs_drop (cls : Z -> bool) (s : pystr) : forall b,
  re_sub_runs cls [] b s = filter (fun c => negb (cls c)) s.
Proof.
  induction s as [|x t IH]; intros b; simpl; auto.
  destruct (cls x); simpl; rewrite IH; [destruct b|]; reflexivity.
Qed.

Lemma In_replace_spaces (c : Z) (s : pystr) :
  In c (replace_spaces s) -> c <> SPACE /\ (c = UNDERSCORE \/ In c s).
Proof.
  unfold replace_spaces. intros H. apply in_map_iff in H as (x & Hx & Hin).
  destruct (Z.eqb_spec x SPACE); subst.
  - split; [discriminate | auto].
  - split; auto.
Qed.

Lemma In_slice_to {A} (n : Z) (x : A) (l : list A) : In x (slice_to n l) -> In x l.
Proof.
  unfold slice_to. intros H. rewrite <- (firstn_skipn (Z.to_nat n) l).
  apply in_or_app. now left.
Qed.

Section SanitizeFacts.
Variable isalnum : Z -> bool.

(** The function is the pipeline with the class [[\w\-\. ]], guarded by
    the emptiness test on the trimmed input. *)
Lemma sanitize_unfold (s : pystr) :
  sanitize_filename_component isalnum s = match strip s with
               | [] => untitled
               | _ => spec_pipeline (kept isalnum) s
               end.
Proof.
  unfold sanitize_filename_component, spec_pipeline.
  destruct (strip s) eqn:E; [reflexivity|].
  rewrite re_sub_runs_drop. do 2 f_equal.
  apply filter_ext. intros c. apply negb_involutive.
Qed.

Lemma spec_pipeline_blank (keep : Z -> bool) (s : pystr) :
  strip s = [] -> spec_pipeline keep s = [].
Proof. unfold spec_pipeline. now intros ->. Qed.

Lemma In_pipeline (c : Z) (s : pystr) :
  In c (spec_pipeline (kept isalnum) s) ->
  c <> SPACE /\ (c = UNDERSCORE \/ (kept isalnum c = true /\ In c s)).
Proof.
  unfold spec_pipeline. intros H.
  apply In_slice_to, In_replace_spaces in H as [Hns [H|H]]; [auto|].
  split; [assumption|]. right.
  apply filter_In in H as [H Hk]. split; [assumption|].
  apply In_collapsed in H as [H|H]; [contradiction|]. now apply In_strip.
Qed.

Lemma kept_cases (c : Z) :
  kept isalnum c = true -> c <> SPACE ->
  isword isalnum c = true \/ c = HYPHEN \/ c = DOT.
Proof.
  unfold kept. intros H Hns.
  destruct (isword isalnum c); [now left|].
  destruct (Z.eqb_spec c HYPHEN); [now (right; left)|].
  destruct (Z.eqb_spec c DOT); [now (right; right)|].
  destruct (Z.eqb_spec c SPACE); [contradiction | discriminate].
Qed.

Hypothesis isalnum_ascii : forall c, 0 <= c < 128 -> isalnum c = ascii_alnum c.

Lemma In_untitled (c : Z) :
  In c untitled -> isalnum c = true /\ portable c = true /\ c <> SPACE.
Proof.
  intros H. vm_compute in H.
  repeat (destruct H as [H|H]; [subst c; rewrite isalnum_ascii by lia; now vm_compute|]).
  contradiction.
Qed.

Lemma output_chars (c : Z) (s : pystr) :
  In c (sanitize_filename_component isalnum s) ->
  c <> SPACE
  /\ (isword isalnum c = true \/ c = HYPHEN \/ c = DOT)
  /\ (Forall (fun x => 0 <= x < 128) s -> portable c = true).
Proof.
  rewrite sanitize_unfold. destruct (strip s) eqn:E.
  - intros H. apply In_untitled in H as (Ha & Hp & Hns).
    unfold isword. rewrite Ha. auto.
  - intros H. apply In_pipeline in H as [Hns [->|[Hk Hin]]].
    + split; [assumption|].
      split; [left; unfold isword; rewrite Z.eqb_refl; apply orb_true_r | reflexivity].
    + split; [assumption|]. split; [now apply kept_cases|].
      intros Hs. rewrite Forall_forall in Hs. specialize (Hs _ Hin).
      destruct (kept_cases c Hk Hns) as [Hw|[->| ->]]; try reflexivity.
      unfold isword in Hw. rewrite isalnum_ascii in Hw by assumption.
      unfold portable. apply orb_prop in Hw as [Hw|Hw].
      * now rewrite Hw.
      * unfold UNDERSCORE in Hw. rewrite Hw. now rewrite !orb_true_r.
Qed.

Lemma sanitize_length (s : pystr) : (List.length (sanitize_filename_component isalnum s) <= 80)%nat.
Proof.
  rewrite sanitize_unfold. destruct (strip s).
  - vm_compute. lia.
  - unfold spec_pipeline, slice_to. apply firstn_le_length.
Qed.

End SanitizeFacts.

(** C5, as claimed, fails.  [\w] keeps the underscore, which the
    specification's pipeline drops, and it keeps the letters of every
    script: U+00E9 passes through, outside [[A-Za-z0-9._-]]. *)
Lemma sanitize_departs_from_spec_pipeline :
  sanitize_filename_component latin1_table (lit "a_b") = lit "a_b"
  /\ spec_sanitize latin1_table (lit "a_b") = lit "ab"
  /\ sanitize_filename_component latin1_table [233] = [233]
  /\ portable 233 = false.
Proof. vm_compute. repeat split. Qed.

(** C5, amended.  [sanitize_filename_component s] is the placeholder when
    [s] is empty or blank, and otherwise the pipeline (trim, collapse the
    whitespace runs, drop what is outside the word characters (letters and
    digits of any script, and the underscore), [-], [.] and space, replace
    spaces by [_], truncate to 80) whenever that pipeline leaves something.
    The output holds only word characters, [-] and [.], no space, at most
    80 characters; on ASCII input it is within [[A-Za-z0-9._-]]. *)
Theorem sanitize_filename_component_spec (isalnum : Z -> bool) (s : pystr) :
  (forall c, 0 <= c < 128 -> isalnum c = ascii_alnum c) ->
  let r := sanitize_filename_component isalnum s in
  (strip s = [] -> r = untitled)
  /\ (spec_pipeline (kept isalnum) s <> [] -> r = spec_pipeline (kept isalnum) s)
  /\ Forall (fun c => isword isalnum c = true \/ c = HYPHEN \/ c = DOT) r
  /\ ~ In SPACE r
  /\ (List.length r <= 80)%nat
  /\ (Forall (fun c => 0 <= c < 128) s -> Forall (fun c => portable c = true) r).
Proof.
  intros Hascii r. subst r.
  split; [intros H; rewrite sanitize_unfold, H; reflexivity|].
  split.
  { intros H. rewrite sanitize_unfold. destruct (strip s) eqn:E; [|reflexivity].
    exfalso. apply H. now apply spec_pipeline_blank. }
  split.
  { apply Forall_forall. intros c Hc. now apply (output_chars isalnum Hascii c s). }
  split.
  { intros Hc. apply (output_chars isalnum Hascii) in Hc as [Hc _]. now apply Hc. }
  split; [apply sanitize_length|].
  intros Hs. apply Forall_forall. intros c Hc.
  now apply (output_chars isalnum Hascii c s).
Qed.

Lemma latin1_table_ascii (c : Z) : 0 <= c < 128 -> latin1_table c = ascii_alnum c.
Proof.
  intros Hc. unfold latin1_table.
  repeat match goal with
         | |- context [?a =? ?b] => destruct (Z.eqb_spec a b); [lia|]
         | |- context [?a <=? ?b] =>
             lazymatch a with
             | c => fail
             | _ => destruct (Z.leb_spec a b); [lia|]
             end
         end.
  now rewrite !orb_false_r.
Qed.

Lemma sanitize_filename_component_spec_witness :
  let r := sanitize_filename_component latin1_table (lit "  My  Game: #1 ") in
  r = spec_pipeline (kept latin1_table) (lit "  My  Game: #1 ")
  /\ Forall (fun c => portable c = true) r.
Proof.
  intros r.
  destruct (sanitize_filename_component_spec latin1_table (lit "  My  Game: #1 ")
              latin1_table_ascii) as (_ & Hpipe & _ & _ & _ & Hportable).
  split.
  - apply Hpipe. vm_compute. discriminate.
  - apply Hportable. apply Forall_forall. intros c Hc. vm_compute in Hc.
    repeat (destruct Hc as [Hc|Hc]; [subst c; lia|]). contradiction.
Defined.

(** ** Idempotence *)

(** C6, on the code.  The placeholder test precedes the filtering: a
    title made of symbols only is not blank, loses every character and
    comes out empty; sanitizing that result gives the placeholder. *)
Theorem sanitize_not_idempotent_on_symbols (isalnum : Z -> bool) :
  isalnum 35 = false ->
  sanitize_filename_component isalnum (lit "###") = []
  /\ sanitize_filename_component isalnum
       (sanitize_filename_component isalnum (lit "###")) = untitled
  /\ sanitize_filename_component isalnum
       (sanitize_filename_component isalnum (lit "###"))
     <> sanitize_filename_component isalnum (lit "###").
Proof.
  intros H.
  assert (E : sanitize_filename_component isalnum (lit "###") = []).
  { unfold sanitize_filename_component. cbn. unfold kept, isword. cbn. rewrite H. reflexivity. }
  rewrite E. repeat split. discriminate.
Qed.

Lemma sanitize_not_idempotent_on_symbols_witness :
  sanitize_filename_component latin1_table
    (sanitize_filename_component latin1_table (lit "###")) = untitled.
Proof.
  apply (sanitize_not_idempotent_on_symbols latin1_table). reflexivity.
Defined.

Section Idempotence.
Variable isalnum : Z -> bool.
Hypothesis isalnum_ascii : forall c, 0 <= c < 128 -> isalnum c = ascii_alnum c.
Hypothesis isalnum_not_space : forall c, isspace c = true -> isalnum c = false.

Lemma word_not_space (c : Z) :
  isword isalnum c = true \/ c = HYPHEN \/ c = DOT -> isspace c = false.
Proof.
  intros [H|[->| ->]]; try reflexivity.
  unfold isword in H. apply orb_prop in H as [H|H].
  - destruct (isspace c) eqn:E; [|reflexivity].
    rewrite (isalnum_not_space c E) in H. discriminate.
  - apply Z.eqb_eq in H. subst c. reflexivity.
Qed.

Lemma dropwhile_none (s : pystr) :
  Forall (fun c => isspace c = false) s -> dropwhile isspace s = s.
Proof. destruct 1 as [|c t Hc _]; simpl; [|rewrite Hc]; reflexivity. Qed.

Lemma strip_clean (s : pystr) :
  Forall (fun c => isspace c = false) s -> strip s = s.
Proof.
  intros H. unfold strip. rewrite (dropwhile_none s H).
  rewrite dropwhile_none by now apply Forall_rev.
  apply rev_involutive.
Qed.

Lemma collapse_clean (s : pystr) : forall b,
  Forall (fun c => isspace c = false) s -> re_sub_runs isspace [SPACE] b s = s.
Proof.
  induction s as [|c t IH]; intros b H; [reflexivity|].
  inversion H as [|? ? Hc Ht]; subst. simpl. rewrite Hc. f_equal. now apply IH.
Qed.

Lemma replace_spaces_clean (s : pystr) :
  ~ In SPACE s -> replace_spaces s = s.
Proof.
  unfold replace_spaces. intros H. rewrite <- (map_id s) at 2.
  apply map_ext_in. intros c Hc.
  destruct (Z.eqb_spec c SPACE); [subst; contradiction | reflexivity].
Qed.

Lemma filter_all {A} (f : A -> bool) (l : list A) :
  Forall (fun x => f x = true) l -> filter f l = l.
Proof.
  induction 1 as [|x t Hx _ IH]; simpl; [|rewrite Hx, IH]; reflexivity.
Qed.

(** Apart from the symbols-only titles, a sanitized label is a fixed
    point of the function. *)
Lemma sanitize_idempotent_nonempty (s : pystr) :
  sanitize_filename_component isalnum s <> [] ->
  sanitize_filename_component isalnum (sanitize_filename_component isalnum s)
  = sanitize_filename_component isalnum s.
Proof.
  set (r := sanitize_filename_component isalnum s). intros Hne.
  assert (Hchars : forall c, In c r ->
             c <> SPACE /\ (isword isalnum c = true \/ c = HYPHEN \/ c = DOT)).
  { intros c Hc. destruct (output_chars isalnum isalnum_ascii c s Hc) as (H1 & H2 & _).
    auto. }
  assert (Hclean : Forall (fun c => isspace c = false) r).
  { apply Forall_forall. intros c Hc. apply word_not_space. now apply Hchars. }
  rewrite sanitize_unfold. rewrite (strip_clean r Hclean).
  destruct r as [|c t] eqn:E; [contradiction|]. rewrite <- E in *.
  unfold spec_pipeline. rewrite (strip_clean r Hclean), (collapse_clean r false Hclean).
  rewrite filter_all.
  2:{ apply Forall_forall. intros x Hx. destruct (Hchars x Hx) as [_ [H|[->| ->]]];
        unfold kept; [rewrite H; reflexivity|..];
        destruct (isword isalnum _); reflexivity. }
  rewrite replace_spaces_clean by (intros Hin; now apply (Hchars SPACE Hin)).
  unfold slice_to. apply firstn_all2.
  subst r. apply sanitize_length.
Qed.

End Idempotence.

(** ** What pruning leaves *)

Lemma filter_filter {A} (f g : A -> bool) (l : list A) :
  filter f (filter g l) = filter (fun x => g x && f x) l.
Proof.
  induction l as [|x t IH]; simpl; auto.
  destruct (g x); simpl; [destruct (f x)|]; now rewrite IH.
Qed.

Lemma buffer_unlink_all (l : list Seg) : forall fs,
  buffer (unlink_all l fs) = filter (fun q => negb (removed_by l q)) (buffer fs)
  /\ files (unlink_all l fs) = files fs.
Proof.
  unfold unlink_all.
  induction l as [|p t IH]; intros fs; cbn [fold_left].
  - split; [|reflexivity]. simpl.
    induction (buffer fs) as [|q b IHb]; simpl; congruence.
  - destruct (IH (fs_unlink (seg_path p) fs)) as [Hb Hf].
    rewrite Hb, Hf. split; [|reflexivity].
    cbn [fs_unlink seg_path buffer].
    rewrite filter_filter. apply filter_ext. intros q.
    cbn [removed_by existsb]. rewrite negb_orb.
    now rewrite (Z.eqb_sym (seg_index q)).
Qed.















(* ================================================================= *)
(** * Further properties of the code *)

(** ** Labels *)

(** X1. Applied twice, the sanitizer always gives a non-empty label on
    which it has no further effect. *)
Theorem sanitize_twice_stable (isalnum : Z -> bool) (s : pystr) :
  (forall c, 0 <= c < 128 -> isalnum c = ascii_alnum c) ->
  (forall c, isspace c = true -> isalnum c = false) ->
  let twice := sanitize_filename_component isalnum (sanitize_filename_component isalnum s) in
  twice <> [] /\ sanitize_filename_component isalnum twice = twice.
Proof.
  intros Hascii Hspace twice. subst twice.
  assert (Hu : sanitize_filename_component isalnum [] = untitled) by reflexivity.
  assert (Hfix : sanitize_filename_component isalnum untitled = untitled).
  { rewrite <- Hu at 1.
    rewrite (sanitize_idempotent_nonempty isalnum Hascii Hspace []); [exact Hu|].
    rewrite Hu. discriminate. }
  destruct (sanitize_filename_component isalnum s) as [|c t] eqn:E.
  - rewrite Hu. split; [discriminate | exact Hfix].
  - rewrite <- E.
    assert (Hne : sanitize_filename_component isalnum s <> []) by (rewrite E; discriminate).
    rewrite (sanitize_idempotent_nonempty isalnum Hascii Hspace s Hne).
    split; [exact Hne|]. now apply sanitize_idempotent_nonempty.
Qed.

Lemma latin1_table_not_space (c : Z) : isspace c = true -> latin1_table c = false.
Proof.
  intros H. destruct (latin1_table c) eqn:L; [exfalso | reflexivity].
  unfold isspace in H. unfold latin1_table, ascii_alnum in L.
  rewrite ?orb_true_iff, ?andb_true_iff, ?Z.leb_le, ?Z.eqb_eq in H, L.
  lia.
Qed.

Lemma sanitize_twice_stable_witness :
  sanitize_filename_component latin1_table
    (sanitize_filename_component latin1_table
       (sanitize_filename_component latin1_table (lit "###")))
  = sanitize_filename_component latin1_table
      (sanitize_filename_component latin1_table (lit "###")).
Proof.
  apply (sanitize_twice_stable latin1_table (lit "###")
           latin1_table_ascii latin1_table_not_space).
Defined.

Lemma collapsed_has_space (s : pystr) :
  (exists c, In c s /\ isspace c = true) ->
  In SPACE (re_sub_runs isspace [SPACE] false s).
Proof.
  induction s as [|x t IH]; intros (c & Hc & Hs); [contradiction|].
  simpl. destruct (isspace x) eqn:E.
  - now left.
  - right. apply IH. exists c. split; [|assumption].
    destruct Hc as [->|Hc]; [congruence | assumption].
Qed.

Lemma collapsed_keeps (c : Z) (s : pystr) : forall b,
  In c s -> isspace c = false -> In c (re_sub_runs isspace [SPACE] b s).
Proof.
  induction s as [|x t IH]; intros b Hc Hs; [contradiction|].
  simpl. destruct Hc as [->|Hc].
  - rewrite Hs. now left.
  - destruct (isspace x); [apply in_or_app|]; right; now apply IH.
Qed.

Lemma pipeline_nil_iff (keep : Z -> bool) (s : pystr) :
  spec_pipeline keep s = []
  <-> filter keep (re_sub_runs isspace [SPACE] false (strip s)) = [].
Proof.
  unfold spec_pipeline, slice_to, replace_spaces.
  destruct (filter keep _) as [|x t]; simpl; split; auto; discriminate.
Qed.

(** X2. The label comes out empty exactly when the title is not blank and
    consists only of characters that are neither whitespace nor kept by
    the filter (symbols, punctuation). *)
Theorem sanitize_empty_iff (isalnum : Z -> bool) (s : pystr) :
  sanitize_filename_component isalnum s = []
  <-> strip s <> []
      /\ Forall (fun c => isspace c = false /\ kept isalnum c = false) (strip s).
Proof.
  rewrite sanitize_unfold. destruct (strip s) as [|x t] eqn:E.
  - split; [discriminate | intros [H _]; contradiction].
  - rewrite pipeline_nil_iff, E. split.
    + intros H. split; [discriminate|].
      assert (Hall : forall c, In c (re_sub_runs isspace [SPACE] false (x :: t)) ->
                               kept isalnum c = false).
      { intros c Hc. destruct (kept isalnum c) eqn:K; [|reflexivity].
        assert (Hin : In c (filter (kept isalnum)
                              (re_sub_runs isspace [SPACE] false (x :: t))))
          by (apply filter_In; auto).
        rewrite H in Hin. contradiction. }
      apply Forall_forall. intros c Hc.
      destruct (isspace c) eqn:Hs.
      * exfalso.
        assert (Hsp : kept isalnum SPACE = false).
        { apply Hall. apply collapsed_has_space. eauto. }
        unfold kept in Hsp. rewrite Z.eqb_refl, orb_true_r in Hsp. discriminate.
      * split; [reflexivity|]. apply Hall. now apply collapsed_keeps.
    + intros [_ H].
      rewrite collapse_clean by (eapply Forall_impl; [|exact H]; now intros c [Hc _]).
      clear E. induction H as [|c l [_ Hk] _ IH]; [reflexivity|].
      simpl. now rewrite Hk.
Qed.

(** X4. A title made only of word characters, [-] and [.] passes through
    unchanged, cut at 80 characters. *)
Theorem sanitize_clean_passthrough (isalnum : Z -> bool) (s : pystr) :
  s <> [] ->
  Forall (fun c => isspace c = false
                   /\ (isword isalnum c = true \/ c = HYPHEN \/ c = DOT)) s ->
  sanitize_filename_component isalnum s = firstn 80 s.
Proof.
  intros Hne H.
  assert (Hclean : Forall (fun c => isspace c = false) s)
    by (eapply Forall_impl; [|exact H]; now intros c [Hc _]).
  rewrite sanitize_unfold, (strip_clean s Hclean).
  destruct s as [|x t] eqn:E; [contradiction|]. rewrite <- E in *.
  unfold spec_pipeline. rewrite (strip_clean s Hclean), (collapse_clean s false Hclean).
  rewrite filter_all.
  2:{ eapply Forall_impl; [|exact H]. intros c [_ [Hw|[->| ->]]];
        unfold kept; [rewrite Hw; reflexivity|..];
        destruct (isword isalnum _); reflexivity. }
  rewrite replace_spaces_clean; [reflexivity|].
  intros Hin. rewrite Forall_forall in Hclean. specialize (Hclean _ Hin). discriminate.
Qed.

Lemma sanitize_clean_passthrough_witness :
  sanitize_filename_component latin1_table (lit "Half-Life.2") = lit "Half-Life.2".
Proof.
  apply (sanitize_clean_passthrough latin1_table (lit "Half-Life.2")); [discriminate|].
  apply Forall_forall. intros c Hc. vm_compute in Hc.
  repeat (destruct Hc as [Hc|Hc]; [subst c; split; [reflexivity | vm_compute; auto]|]).
  contradiction.
Defined.

(** X3. The label that [save_clip] puts in the clip's file name holds at
    most 80 characters, none of them whitespace, a path separator or
    another character that file systems refuse (slash, backslash, colon,
    star, question mark, double quote, angle brackets, bar and NUL). *)
Theorem clip_label_is_filename_safe (cfg : Config) (env : Env) (length : Z) :
  (forall c, 0 <= c < 128 -> isalnum env c = ascii_alnum c) ->
  (forall c, isspace c = true -> isalnum env c = false) ->
  exists label,
    out_path_of cfg env length = ClipFile (now env) length label
    /\ (List.length label <= 80)%nat
    /\ forall c, In c label ->
         isspace c = false /\ ~ In c [47; 92; 58; 42; 63; 34; 60; 62; 124; 0].
Proof.
  intros Hascii Hspace. eexists. split; [reflexivity|].
  split; [apply sanitize_length|].
  intros c Hc.
  destruct (output_chars (isalnum env) Hascii c _ Hc) as (_ & Hw & _).
  split; [now apply (word_not_space (isalnum env) Hspace)|].
  intros Hbad. simpl in Hbad.
  assert (Hno : forall x, In x [47; 92; 58; 42; 63; 34; 60; 62; 124; 0] ->
                  ~ (isword (isalnum env) x = true \/ x = HYPHEN \/ x = DOT)).
  { intros x Hx [H|[H|H]]; simpl in Hx;
      repeat (destruct Hx as [Hx|Hx];
              [subst x; try discriminate;
               unfold isword in H; rewrite Hascii in H by lia; discriminate|]);
      contradiction. }
  apply (Hno c); [exact Hbad | exact Hw].
Qed.

Lemma clip_label_is_filename_safe_witness :
  exists label,
    out_path_of default_config
      (with_probe env0 Working 0) 120 = ClipFile 20260101120000 120 label
    /\ (List.length label <= 80)%nat.
Proof.
  destruct (clip_label_is_filename_safe default_config (with_probe env0 Working 0) 120
              latin1_table_ascii latin1_table_not_space) as (label & H1 & H2 & _).
  exists label. split; assumption.
Defined.

Lemma sanitize_empty_iff_witness :
  sanitize_filename_component latin1_table (lit " ?!* ") = [].
Proof.
  apply sanitize_empty_iff. split; [vm_compute; discriminate|].
  vm_compute. repeat constructor.
Defined.

(** ** The cleanup loop *)






Lemma default_need_within_capacity (cfg : Config) :
  0 < segment_time cfg -> segment_time cfg <= clip_length cfg ->
  Z.max 1 (ceil_div (clip_length cfg) (segment_time cfg))
  <= clip_length cfg / segment_time cfg * 3.
Proof.
  intros Hs Hc. unfold ceil_div.
  set (c := clip_length cfg) in *. set (s := segment_time cfg) in *.
  assert (H1 := Z.div_mod c s ltac:(lia)).
  assert (H2 := Z.mod_pos_bound c s Hs).
  assert (H3 := Z.div_mod (- c) s ltac:(lia)).
  assert (H4 := Z.mod_pos_bound (- c) s Hs).
  assert (1 <= c / s) by (apply Z.div_le_lower_bound; lia). nia.
Qed.

(** X7. For [segment_time > 0], [clip_length >= 0] and
    [clip_length + segment_time - 1 < 2^53] (where the float quotients of
    the source are exact), the cleanup capacity is
    [(clip_length // segment_time) * 3] and a default-length save needs
    [max(1, ceil(clip_length / segment_time))] segments.  The capacity
    covers that need when [clip_length >= segment_time]; when
    [clip_length < segment_time] the capacity is 0 while [save_clip] needs
    1 segment. *)
Theorem capacity_covers_default_clip (cfg : Config) :
  0 < segment_time cfg ->
  0 <= clip_length cfg ->
  clip_length cfg + segment_time cfg - 1 < 2 ^ 53 ->
  capacity cfg = Some (clip_length cfg / segment_time cfg * 3)
  /\ needed_segments cfg (effective_length cfg None)
     = Some (Z.max 1 (ceil_div (clip_length cfg) (segment_time cfg)))
  /\ (segment_time cfg <= clip_length cfg ->
      Z.max 1 (ceil_div (clip_length cfg) (segment_time cfg))
      <= clip_length cfg / segment_time cfg * 3)
  /\ (clip_length cfg < segment_time cfg ->
      capacity cfg = Some 0
      /\ needed_segments cfg (effective_length cfg None) = Some 1).
Proof.
  intros Hs Hc Hexact.
  assert (Hcap := capacity_floor cfg Hs Hc).
  assert (Hneed : needed_segments cfg (effective_length cfg None)
                  = Some (Z.max 1 (ceil_div (clip_length cfg) (segment_time cfg))))
    by now apply needed_segments_ceil.
  split; [exact Hcap|]. split; [exact Hneed|].
  split; [now apply default_need_within_capacity|].
  intros Hlt. rewrite Hcap, Hneed. rewrite Z.div_small by lia.
  split; [reflexivity|]. f_equal. apply Z.max_l. unfold ceil_div.
  destruct (Z.eq_dec (clip_length cfg) 0) as [->|Hnz]; [vm_compute; discriminate|].
  assert (H3 := Z.div_mod (- clip_length cfg) (segment_time cfg) ltac:(lia)).
  assert (H4 := Z.mod_pos_bound (- clip_length cfg) (segment_time cfg) Hs).
  nia.
Qed.

Lemma capacity_covers_default_clip_witness :
  capacity (with_lengths default_config 5 10) = Some 0
  /\ needed_segments (with_lengths default_config 5 10)
       (effective_length (with_lengths default_config 5 10) None) = Some 1.
Proof.
  apply (capacity_covers_default_clip (with_lengths default_config 5 10));
    reflexivity || discriminate.
Defined.

(** X8. With [segment_time = 0] both divisions raise
    [ZeroDivisionError] before anything else happens: [save_clip] raises
    without probing or listing, and the cleanup thread ends before its
    first tick. *)
Theorem zero_segment_time_raises (cfg : Config) (env : Env) (ls : option Z)
    (n : nat) (fs : FS) :
  segment_time cfg = 0 ->
  save_clip cfg env ls fs = (Raises ZeroDivisionError, fs, [])
  /\ cleanup_loop cfg env n fs = (Raises ZeroDivisionError, fs, []).
Proof.
  intros Hs. split.
  - apply save_clip_zero_division. unfold needed_segments, int_truediv. now rewrite Hs.
  - unfold cleanup_loop, call, capacity, int_truediv. now rewrite Hs.
Qed.

Lemma zero_segment_time_raises_witness :
  save_clip (with_lengths default_config 120 0) env0 None (fs_with 3)
  = (Raises ZeroDivisionError, fs_with 3, []).
Proof.
  apply (zero_segment_time_raises (with_lengths default_config 120 0) env0 None 0 (fs_with 3)).
  reflexivity.
Defined.

Lemma unlink_all_app (l1 l2 : list Seg) (fs : FS) :
  unlink_all l2 (unlink_all l1 fs) = unlink_all (l1 ++ l2) fs.
Proof. unfold unlink_all. now rewrite fold_left_app. Qed.

Lemma cleanup_tick_only_unlinks (cfg : Config) (env : Env) (cap : Z) (fs : FS) :
  exists l evs,
    cleanup_tick cfg env cap fs = (Next tt, unlink_all l fs, evs)
    /\ forall e, In e evs ->
         e = EvGlob \/ e = EvDiskUsage
         \/ (exists i, e = EvUnlink (BufSeg i))
         \/ (exists free count, e = EvLog WARNING (MsgLowDisk free count)).
Proof.
  rewrite cleanup_tick_run. unfold capacity_pruned.
  assert (Hu : forall l e, In e (unlink_events l) -> exists i, e = EvUnlink (BufSeg i)).
  { intros l e H. unfold unlink_events in H. apply in_map_iff in H as (q & <- & _).
    now eexists. }
  destruct (psutil env).
  - do 2 eexists. split; [reflexivity|].
    intros e [<-|H]; [now left|]. right. right. left. eapply Hu; eassumption.
  - do 2 eexists. split; [reflexivity|].
    intros e [<-|H]; [now left|]. apply in_app_or in H as [H|[<-|[]]]; [|now (right; left)].
    right. right. left. eapply Hu; eassumption.
  - destruct (below_min_free cfg (free_bytes env) && _).
    + rewrite unlink_all_app. do 2 eexists. split; [reflexivity|].
      intros e [<-|H]; [now left|]. apply in_app_or in H as [H|[<-|H]].
      * right. right. left. eapply Hu; eassumption.
      * right. now left.
      * apply in_app_or in H as [H|[<-|[]]].
        -- right. right. left. eapply Hu; eassumption.
        -- right. right. right. now do 2 eexists.
    + do 2 eexists. split; [reflexivity|].
      intros e [<-|H]; [now left|]. apply in_app_or in H as [H|[<-|[]]]; [|now (right; left)].
      right. right. left. eapply Hu; eassumption.
Qed.

(** X9. The cleanup loop only ever removes segment files.  Whatever the
    probe says, any number of ticks ends normally, leaves the other files
    (concat lists, clips) as they were, leaves in the buffer a selection of
    the segments that were there, in the same order, and does nothing but
    list, probe, unlink [buf-*.ts] files and log the low-disk warning. *)
Theorem cleanup_only_removes_segments (cfg : Config) (env : Env) (cap : Z) (n : nat) :
  forall fs,
  exists keep fs' evs,
    cleanup_ticks cfg env cap n fs = (Next tt, fs', evs)
    /\ files fs' = files fs
    /\ buffer fs' = filter keep (buffer fs)
    /\ forall e, In e evs ->
         e = EvGlob \/ e = EvDiskUsage
         \/ (exists i, e = EvUnlink (BufSeg i))
         \/ (exists free count, e = EvLog WARNING (MsgLowDisk free count)).
Proof.
  induction n as [|n IH]; intros fs.
  - exists (fun _ => true), fs, []. repeat split; try reflexivity.
    + symmetry. apply filter_all. apply Forall_forall. reflexivity.
    + intros e [].
  - destruct (cleanup_tick_only_unlinks cfg env cap fs) as (l & ev1 & Hrun & Hev1).
    destruct (IH (unlink_all l fs)) as (keep & fs' & ev2 & Hrest & Hf & Hb & Hev2).
    destruct (buffer_unlink_all l fs) as [Hbl Hfl].
    exists (fun q => negb (removed_by l q) && keep q), fs', (ev1 ++ ev2).
    split; [cbn [cleanup_ticks]; unfold bind; now rewrite Hrun, Hrest|].
    split; [congruence|].
    split; [rewrite Hb, Hbl; apply filter_filter|].
    intros e He. apply in_app_or in He as [He|He]; auto.
Qed.




Lemma cleanup_only_removes_segments_witness :
  exists keep fs' evs,
    cleanup_ticks default_config env0 36 2 (fs_with 40) = (Next tt, fs', evs)
    /\ files fs' = files (fs_with 40)
    /\ buffer fs' = filter keep (buffer (fs_with 40)).
Proof.
  destruct (cleanup_only_removes_segments default_config env0 36 2 (fs_with 40))
    as (keep & fs' & evs & Hrun & Hf & Hb & _).
  exists keep, fs', evs. repeat split; assumption.
Defined.

(** ** More on [save_clip] *)

(** Every way a call of [save_clip] can end. *)
Ltac save_clip_all_cases cfg env ls fs :=
  let Hn := fresh "Hn" in
  let Hp := fresh "Hp" in
  let Hsorted := fresh "Hsorted" in
  destruct (needed_segments cfg (effective_length cfg ls)) as [?needed|] eqn:Hn;
  [ destruct (probe_reports_below env ASSEMBLY_FLOOR) eqn:Hp;
    [ rewrite (save_clip_low_space cfg env ls fs _ Hn Hp)
    | destruct (sorted st_mtime true (buffer fs)) as [|?newest ?older] eqn:Hsorted;
      [ rewrite (save_clip_no_segments cfg env ls fs _ Hn Hp (sorted_nil _ _ _ Hsorted))
      | save_clip_cases cfg env ls fs Hn Hp Hsorted ] ]
  | rewrite (save_clip_zero_division cfg env ls fs Hn) ].

(** X11. [save_clip] never deletes or alters a segment: on every path the
    buffer is as before, the only file it unlinks is its own concat list,
    and every file other than that list and the output clip is left as it
    was. *)
Theorem save_clip_touches_only_its_files (cfg : Config) (env : Env) (ls : option Z) (fs : FS) :
  let '(_, fs', evs) := save_clip cfg env ls fs in
  buffer fs' = buffer fs
  /\ Forall (fun p => p = TmpList (tmp_name env)) (unlinked evs)
  /\ forall p,
       p <> TmpList (tmp_name env) ->
       p <> out_path_of cfg env (effective_length cfg ls) ->
       lookup_file p (files fs') = lookup_file p (files fs).
Proof.
  save_clip_all_cases cfg env ls fs;
    (split; [reflexivity|]);
    (split; [probe_cases env; repeat constructor|]);
    intros p H1 H2; cbn [files];
    rewrite ?lookup_remove_other, ?lookup_write_other by assumption;
    reflexivity.
Qed.

Lemma save_clip_touches_only_its_files_witness :
  let '(_, fs', _) :=
    save_clip default_config (with_ffmpeg env0 (Exit 1) (Exit 1)) None (fs_with 15) in
  buffer fs' = buffer (fs_with 15).
Proof.
  generalize (save_clip_touches_only_its_files default_config
                (with_ffmpeg env0 (Exit 1) (Exit 1)) None (fs_with 15)).
  destruct (save_clip default_config (with_ffmpeg env0 (Exit 1) (Exit 1)) None (fs_with 15))
    as [[r fs'] evs].
  intros (Hb & _). exact Hb.
Defined.

(** X12. A clip is announced exactly when it is returned.  When
    [save_clip] returns a path, it is the output path, one notification
    names it, and the file there is the complete concatenation of the
    listed segments; on every other outcome (no clip, or an exception)
    nothing is notified. *)
Theorem notified_iff_returned (cfg : Config) (env : Env) (ls : option Z) (fs : FS) :
  let out := out_path_of cfg env (effective_length cfg ls) in
  let '(r, fs', evs) := save_clip cfg env ls fs in
  match r with
  | Returns (Some p) =>
      p = out
      /\ notifications evs = [EvNotify out]
      /\ exists codec lines,
           manifests evs = [lines]
           /\ lookup_file out (files fs') = Some (Video true codec lines)
  | _ => notifications evs = []
  end.
Proof.
  intros out. subst out.
  save_clip_all_cases cfg env ls fs; try (probe_cases env; reflexivity).
  - split; [reflexivity|]. split; [probe_cases env; reflexivity|].
    do 2 eexists. split; [probe_cases env; reflexivity|]. cbn [files].
    rewrite lookup_remove_other by (symmetry; apply tmp_is_not_clip).
    apply lookup_write_same.
  - split; [reflexivity|]. split; [probe_cases env; reflexivity|].
    do 2 eexists. split; [probe_cases env; reflexivity|]. cbn [files].
    rewrite !lookup_remove_other by (symmetry; apply tmp_is_not_clip).
    apply lookup_write_same.
Qed.





(** ** Cleanup and assembly together *)





(** ** The monitor *)

(** X16. [detect_primary_monitor] never fails.  With at least one monitor
    listed it returns the region of a listed monitor (absent attributes
    replaced by 1920, 1080, 0, 0): one flagged primary if there is any,
    else one at the origin if there is any, else the first.  Without
    [screeninfo], when [get_monitors] raises, or on an empty list (the
    [IndexError] of [mons[0]] is caught), it logs and returns 1920x1080 at
    (0,0). *)
Theorem detect_primary_monitor_choice (si : Screeninfo) :
  match si with
  | GetMonitors (first :: rest) =>
      exists m,
        In m (first :: rest)
        /\ detect_primary_monitor si = (region_of m, DetectQuiet)
        /\ (existsb is_primary (first :: rest) = true -> is_primary m = true)
        /\ (existsb is_primary (first :: rest) = false ->
            existsb at_origin (first :: rest) = true -> at_origin m = true)
        /\ (existsb is_primary (first :: rest) = false ->
            existsb at_origin (first :: rest) = false -> m = first)
  | _ =>
      fst (detect_primary_monitor si) = ASSUMED_REGION
      /\ snd (detect_primary_monitor si) <> DetectQuiet
  end.
Proof.
  destruct si as [| |[|first rest]]; try (split; [reflexivity | discriminate]).
  set (mons := first :: rest).
  assert (Hnone : forall f, find f mons = None -> existsb f mons = false).
  { intros f H. destruct (existsb f mons) eqn:E; [|reflexivity].
    apply existsb_exists in E as (x & Hx & Hf).
    rewrite (find_none f mons H x Hx) in Hf. discriminate. }
  assert (Hsome : forall f x, find f mons = Some x -> existsb f mons = true).
  { intros f x H. apply find_some in H as [Hin Hf]. apply existsb_exists. eauto. }
  unfold detect_primary_monitor. fold mons.
  destruct (find is_primary mons) as [p|] eqn:Ep.
  - destruct (find_some _ _ Ep) as [Hin Hp]. exists p.
    rewrite (Hsome _ _ Ep). repeat split; auto; discriminate.
  - rewrite (Hnone _ Ep). unfold mons at 1.
    destruct (find at_origin mons) as [o|] eqn:Eo.
    + destruct (find_some _ _ Eo) as [Hin Ho]. exists o.
      rewrite (Hsome _ _ Eo). repeat split; auto; discriminate.
    + exists first. rewrite (Hnone _ Eo).
      repeat split; auto; try discriminate. now left.
Qed.

Lemma detect_primary_monitor_choice_witness :
  let secondary := {| mon_is_primary := None; mon_x := Some 0; mon_y := Some 0;
                      mon_width := Some 1280; mon_height := Some 720 |} in
  let primary := {| mon_is_primary := Some true; mon_x := Some 1280; mon_y := None;
                    mon_width := Some 2560; mon_height := None |} in
  exists m,
    detect_primary_monitor (GetMonitors [secondary; primary]) = (region_of m, DetectQuiet)
    /\ is_primary m = true.
Proof.
  intros secondary primary.
  destruct (detect_primary_monitor_choice (GetMonitors [secondary; primary]))
    as (m & _ & Hd & Hp & _).
  exists m. split; [exact Hd | apply Hp; reflexivity].
Defined.

(** ** The recording command *)

(** X17. On every platform the recording command is the [ffmpeg] path,
    a platform-specific input section, then the same video and segment
    options: it asks for the configured frame rate, capture size, encoder
    and preset, gives the configured GOP to both [-g] and [-keyint_min],
    cuts segments of the configured duration in MPEG-TS, and ends with the
    [buf-%05d.ts] pattern. *)
Theorem record_cmd_settings (cfg : Config) (r : MonitorRegion) (system : Platform)
    (display : pystr) :
  let cmd := build_ffmpeg_record_cmd cfg r system display in
  (exists input_sec,
      cmd = Str (ffmpeg_path cfg) :: input_sec ++ common_video cfg ++ segmenter cfg
      /\ value_of "-g" input_sec = None
      /\ value_of "-segment_time" input_sec = None)
  /\ value_of "-framerate" cmd = Some (Int (framerate cfg))
  /\ value_of "-video_size" cmd = Some (Size (width r) (height r))
  /\ value_of "-c:v" cmd = Some (Str (encoder cfg))
  /\ value_of "-preset" cmd = Some (Str (preset cfg))
  /\ value_of "-g" cmd = Some (Int (gop cfg))
  /\ value_of "-keyint_min" cmd = Some (Int (gop cfg))
  /\ value_of "-segment_time" cmd = Some (Int (segment_time cfg))
  /\ value_of "-segment_format" cmd = Some (Lit "mpegts")
  /\ last cmd (Lit "") = OutPattern.
Proof.
  destruct system; cbv zeta; (split; [eexists; repeat split|]); repeat split.
Qed.

(** X18. With the configuration [main] builds from the command line, the
    keyframe interval given to [ffmpeg] is [max(30, 2 * framerate)]: never
    below 30, and twice the frame rate from 15 fps up; the low-disk
    threshold is always 2 GB. *)
Theorem main_record_cmd_gop (ffmpeg : pystr) (args : Args) (r : MonitorRegion)
    (system : Platform) (display : pystr) :
  let cfg := config_of_args ffmpeg args in
  exists g,
    value_of "-g" (build_ffmpeg_record_cmd cfg r system display) = Some (Int g)
    /\ value_of "-keyint_min" (build_ffmpeg_record_cmd cfg r system display) = Some (Int g)
    /\ 30 <= g
    /\ (15 <= arg_framerate args -> g = 2 * arg_framerate args)
    /\ (arg_framerate args <= 15 -> g = 30)
    /\ min_free_gb cfg = 2.
Proof.
  intros cfg. exists (Z.max 30 (arg_framerate args * 2)).
  split; [destruct system; reflexivity|].
  split; [destruct system; reflexivity|].
  repeat split; lia.
Qed.

Lemma main_record_cmd_gop_witness :
  let args := {| arg_clip_length := 120; arg_segment_time := 10; arg_framerate := 60;
                 arg_encoder := lit "libx264"; arg_preset := lit "veryfast";
                 arg_verbose := false |} in
  value_of "-g" (build_ffmpeg_record_cmd (config_of_args (lit "ffmpeg") args)
                   ASSUMED_REGION Windows (lit ":0.0"))
  = Some (Int 120).
Proof.
  intros args.
  destruct (main_record_cmd_gop (lit "ffmpeg") args ASSUMED_REGION Windows (lit ":0.0"))
    as (g & Hg & _ & _ & H2 & _).
  rewrite Hg. rewrite (H2 ltac:(discriminate)). reflexivity.
Defined.

(** ** Starting and stopping the recorder *)

(** X19. [Recorder.stop] never raises and always leaves the recorder
    without a process handle and with its stop event set.  [kill] is sent
    only after a [terminate] that did not fail and a [wait] that timed
    out.  When neither [terminate] nor [kill] fails, a recorder that held
    its process leaves no child running. *)
Theorem recorder_stop_clears (w : ProcWorld) (r : Recorder) :
  let '(r', evs) := recorder_stop w r in
  has_proc r' = false
  /\ stop_event_set r' = true
  /\ cleanup_thread_started r' = cleanup_thread_started r
  /\ (In PevKill evs ->
      terminate_fails w = false /\ exits_in_time w = false
      /\ evs = [PevLogStopping; PevTerminate; PevWait; PevKill])
  /\ (terminate_fails w = false -> kill_fails w = false ->
      child_alive r' = true -> has_proc r = false /\ child_alive r = true /\ evs = []).
Proof.
  unfold recorder_stop.
  destruct (has_proc r) eqn:Hh, (child_alive r) eqn:Ha, (terminate_fails w) eqn:Ht,
    (exits_in_time w) eqn:He, (kill_fails w) eqn:Hk; cbn;
    repeat split; try reflexivity; try discriminate;
    intros; try discriminate; auto;
    repeat match goal with
           | H : _ \/ _ |- _ => destruct H; try discriminate
           | H : False |- _ => contradiction
           end.
Qed.

Lemma recorder_stop_clears_witness :
  let w := {| popen_fails := false; child_exits_early := false;
              terminate_fails := false; exits_in_time := false; kill_fails := false |} in
  let r := {| has_proc := true; child_alive := true;
              stop_event_set := false; cleanup_thread_started := true |} in
  snd (recorder_stop w r) = [PevLogStopping; PevTerminate; PevWait; PevKill].
Proof.
  intros w r. generalize (recorder_stop_clears w r).
  destruct (recorder_stop w r) as [r' evs] eqn:E.
  intros (_ & _ & _ & Hkill & _). apply Hkill.
  apply (f_equal snd) in E. simpl in E. rewrite <- E. vm_compute. tauto.
Defined.

(** X20. [Recorder.stop] is idempotent: a second call, whatever the
    system would answer, signals nothing and leaves the recorder as the
    first call left it. *)
Theorem recorder_stop_idempotent (w1 w2 : ProcWorld) (r : Recorder) :
  recorder_stop w2 (fst (recorder_stop w1 r)) = (fst (recorder_stop w1 r), []).
Proof.
  unfold recorder_stop.
  destruct (has_proc r), (child_alive r), (terminate_fails w1), (exits_in_time w1),
    (kill_fails w1); reflexivity.
Qed.

(** X21. [start] followed by [stop].  If [Popen] fails, [start] raises the
    [OSError] having created neither process handle nor cleanup thread,
    and the [stop] that follows signals nothing.  Otherwise the cleanup
    thread is started; if [ffmpeg] has exited on its own by the time of
    [stop], [stop] sends no signal; if it is still running, [stop] asks it
    to terminate, and no child is left running unless [terminate] or
    [kill] itself fails. *)
Theorem start_then_stop (w : ProcWorld) :
  let '(o, r, ev1) := recorder_start w new_recorder in
  let '(r', ev2) := recorder_stop w r in
  has_proc r' = false
  /\ (popen_fails w = true ->
      o = Raises OSError /\ r = new_recorder /\ ev2 = []
      /\ ~ In PevCleanupThread ev1 /\ child_alive r' = false)
  /\ (popen_fails w = false ->
      o = Returns tt /\ In PevCleanupThread ev1
      /\ (child_exits_early w = true -> ev2 = [] /\ child_alive r' = false)
      /\ (child_exits_early w = false ->
          In PevTerminate ev2
          /\ (terminate_fails w = false -> kill_fails w = false ->
              child_alive r' = false))).
Proof.
  unfold recorder_start, recorder_stop, new_recorder.
  destruct (popen_fails w), (child_exits_early w), (terminate_fails w),
    (exits_in_time w), (kill_fails w); cbn;
    repeat split; try reflexivity; try discriminate; intros;
    try discriminate; auto; try (intuition discriminate).
Qed.

Lemma start_then_stop_witness :
  let w := {| popen_fails := false; child_exits_early := true;
              terminate_fails := false; exits_in_time := true; kill_fails := false |} in
  let '(_, r, _) := recorder_start w new_recorder in
  let '(r', ev2) := recorder_stop w r in
  ev2 = [] /\ child_alive r' = false.
Proof.
  intros w. generalize (start_then_stop w).
  destruct (recorder_start w new_recorder) as [[o r] ev1].
  destruct (recorder_stop w r) as [r' ev2].
  intros (_ & _ & H). destruct (H eq_refl) as (_ & _ & Hearly & _).
  apply Hearly. reflexivity.
Defined.

(** ** The float quotient *)

Lemma scaled_nonpos (n d e : Z) :
  e <= 0 -> scaled_num n e = n * 2 ^ (- e) /\ scaled_den d e = d.
Proof.
  intros He. unfold scaled_num, scaled_den.
  destruct (Z.leb_spec 0 e) as [H|H]; [|auto].
  assert (e = 0) by lia. subst e. simpl. split; ring.
Qed.

(** Below [2^53] the exponent is not positive and normalises the quotient. *)
Lemma double_exponent_small (n d : Z) :
  0 < n < 2 ^ 53 -> 0 < d ->
  let s := - double_exponent n d in
  0 <= s /\ 2 ^ 52 * d <= n * 2 ^ s < 2 ^ 53 * d.
Proof.
  intros [Hn Hn53] Hd.
  destruct (Z.log2_spec n Hn) as [Hn1 Hn2]. destruct (Z.log2_spec d Hd) as [Hd1 Hd2].
  assert (Hln : 0 <= Z.log2 n <= 52).
  { split; [apply Z.log2_nonneg|]. apply Z.lt_succ_r. apply Z.log2_lt_pow2; lia. }
  assert (Hld : 0 <= Z.log2 d) by apply Z.log2_nonneg.
  set (ln := Z.log2 n) in *. set (ld := Z.log2 d) in *.
  set (k := 52 - ln + ld).
  assert (Hk : 0 <= k) by (unfold k; lia).
  assert (Hkey : 2 ^ ln * 2 ^ k = 2 ^ 52 * 2 ^ ld).
  { rewrite <- !Z.pow_add_r by lia. f_equal. unfold k. lia. }
  rewrite !Z.pow_succ_r in * by lia.
  assert (HP : 0 < 2 ^ k) by (apply Z.pow_pos_nonneg; lia).
  assert (HA : 0 < 2 ^ ln) by (apply Z.pow_pos_nonneg; lia).
  assert (HB : 0 < 2 ^ ld) by (apply Z.pow_pos_nonneg; lia).
  unfold double_exponent. fold ln ld.
  replace (ln - ld - 52) with (- k) by (unfold k; lia).
  destruct (scaled_nonpos n d (- k) ltac:(lia)) as [-> ->].
  rewrite Z.opp_involutive.
  set (P := 2 ^ k) in *. set (A := 2 ^ ln) in *. set (B := 2 ^ ld) in *.
  assert (H1 : A * P <= n * P) by (apply Z.mul_le_mono_nonneg_r; lia).
  assert (H2 : n * P < 2 * A * P) by (apply Z.mul_lt_mono_pos_r; lia).
  destruct (Z.leb_spec (2 ^ 52 * d) (n * P)) as [Hc|Hc]; cbv zeta.
  - rewrite Z.opp_involutive. fold P. split; [lia|]. split; [lia|]. nia.
  - replace (- (- k - 1)) with (Z.succ k) by lia. rewrite Z.pow_succ_r by lia. fold P.
    split; [lia|]. split; nia.
Qed.

Lemma round_half_even_cases (N d : Z) :
  0 < d ->
  round_half_even N d = N / d
  \/ (round_half_even N d = N / d + 1 /\ d <= 2 * (N mod d)).
Proof.
  intros Hd. unfold round_half_even.
  destruct (Z.ltb_spec (2 * (N mod d)) d); [now left|].
  destruct (Z.ltb_spec d (2 * (N mod d))); [right; split; [reflexivity | lia]|].
  destruct (Z.even (N / d)); [now left | right; split; [reflexivity | lia]].
Qed.

(** The core: within a normalised 53-bit mantissa, rounding to nearest
    never reaches the next integer. *)
Lemma truncation_survives_rounding (n d s : Z) :
  0 < n < 2 ^ 53 -> 0 < d -> 0 <= s ->
  2 ^ 52 * d <= n * 2 ^ s < 2 ^ 53 * d ->
  round_half_even (n * 2 ^ s) d / 2 ^ s = n / d.
Proof.
  intros [Hn Hn53] Hd Hs [Hlo Hhi].
  set (T := 2 ^ s) in *.
  assert (HT : 0 < T) by (apply Z.pow_pos_nonneg; lia).
  assert (Hq : (n * T) / d / T = n / d).
  { rewrite Z.div_div by lia. rewrite (Z.mul_comm d T).
    rewrite (Z.mul_comm n T). apply Z.div_mul_cancel_l; lia. }
  destruct (round_half_even_cases (n * T) d Hd) as [->|[-> Hr]]; [exact Hq|].
  set (q := n * T / d) in *. set (k := n / d) in *.
  assert (HN := Z.div_mod (n * T) d ltac:(lia)). fold q in HN.
  assert (Hrb := Z.mod_pos_bound (n * T) d Hd).
  set (r := (n * T) mod d) in *.
  assert (Hq52 : 2 ^ 52 <= q) by (apply Z.div_le_lower_bound; lia).
  assert (Hk := Z.div_mod n d ltac:(lia)). fold k in Hk.
  assert (Hkb := Z.mod_pos_bound n d Hd).
  assert (HqT := Z.div_mod q T ltac:(lia)). rewrite Hq in HqT.
  assert (HqTb := Z.mod_pos_bound q T HT).
  (* q = T * k + q mod T *)
  destruct (Z_lt_le_dec (q mod T + 1) T) as [Hlt|Hge].
  - (* no carry *)
    rewrite <- Hq. symmetry.
    apply Z.div_unique with (r := q mod T + 1); [lia|].
    apply Z.div_unique with (r := q mod T) in HqT as Hx; [|lia].
    rewrite <- Hx. lia.
  - exfalso.
    assert (Hq1 : q + 1 = (k + 1) * T) by lia.
    set (u := d * (k + 1) - n).
    assert (Hu : 1 <= u) by (unfold u; lia).
    assert (Hd2 : 2 * T * u <= d).
    { unfold u. nia. }
    assert (Hd2T : 2 * T <= d) by nia.
    assert (Hn2 : 2 * T * (2 * T * (k + 1) - 1) <= 2 * T * n).
    { assert (0 < 2 * T * (k + 1) - 1) by nia.
      assert (d * (2 * T * (k + 1) - 1) <= 2 * T * n) by (unfold u in *; nia).
      nia. }
    assert (2 * T * (k + 1) - 1 <= n) by nia.
    nia.
Qed.

Lemma double_int_quotient_exact (n d : Z) :
  0 < n < 2 ^ 53 -> 0 < d -> double_int_quotient n d = Some (n / d).
Proof.
  intros Hn Hd. destruct (double_exponent_small n d Hn Hd) as (Hs & Hnorm).
  unfold double_int_quotient.
  set (e := double_exponent n d) in *.
  destruct (scaled_nonpos n d e ltac:(lia)) as [-> ->].
  destruct (Z.ltb_spec 971 e); [lia|].
  destruct (Z.eqb_spec e 971); [lia|]. cbn [orb andb].
  f_equal.
  rewrite <- (truncation_survives_rounding n d (- e) Hn Hd Hs Hnorm).
  destruct (Z.leb_spec 0 e); [|reflexivity].
  replace e with 0 by lia. simpl. rewrite Z.div_1_r. ring.
Qed.

(** Beyond the bound the two differ: the float quotient rounds up
    across an integer, or overflows. *)
Lemma float_int_truediv_beyond_bound :
  float_int_truediv (3 * 2 ^ 52 - 1) (2 ^ 52) = DivValue 3
  /\ int_truediv (3 * 2 ^ 52 - 1) (2 ^ 52) = Some 2
  /\ float_int_truediv (2 ^ 53 + 1) 1 = DivValue (2 ^ 53)
  /\ float_int_truediv (2 ^ 60 - 1) (2 ^ 60) = DivValue 1
  /\ float_int_truediv (2 ^ 1024) 1 = DivOverflow.
Proof. vm_compute. repeat split. Qed.

(** X22. For [|a| < 2^53] the interpreter's [int(a / b)] (float division
    rounded to the nearest double, then truncation toward zero) is what
    the embedding computes: [ZeroDivisionError] when [b = 0], the exact
    truncated quotient otherwise, whatever the size of [b]. *)
Theorem float_int_truediv_exact (a b : Z) :
  Z.abs a < 2 ^ 53 ->
  float_int_truediv a b
  = match int_truediv a b with
    | None => DivZero
    | Some q => DivValue q
    end.
Proof.
  intros Ha. unfold float_int_truediv, int_truediv.
  destruct (Z.eqb_spec b 0); [reflexivity|].
  destruct (Z.eqb_spec a 0) as [->|Hna]; [now rewrite Z.quot_0_l|].
  rewrite double_int_quotient_exact by lia.
  f_equal. symmetry. now apply Z.quot_div.
Qed.

Lemma float_int_truediv_exact_witness :
  float_int_truediv (120 + 10 - 1) 10 = DivValue 12.
Proof.
  apply (float_int_truediv_exact (120 + 10 - 1) 10). reflexivity.
Defined.
